(** * SimplyTerm Folders: the folder store, shallowly embedded

    The plugin keeps three pieces of module state -- the array [folders],
    the object [sessionFolders] (session id -> folder id) and the set
    [expandedFolders] -- and mutates them through [createFolder],
    [updateFolder], [deleteFolder] and [moveSessionToFolder].  This file
    embeds those functions (from the current revision of the plugin, the
    one with the circular-reference guard and the persisted expansion state)
    and proves the properties the specification states about them.

    Conventions.
    - A JS string is a [string]; [null] is [None]; an absent field of an
      update object ([undefined]) is [None] at the outer [option].
    - [order] is a JS number holding an integer; it is a [Z].
    - The array [folders] is a [list Folder]; an in-place field assignment
      on the object found by [find] is a list update at its index.
    - The object [sessionFolders] is a [gmap string string], its own
      string-keyed properties, read and written through [js_get] and
      [js_set]: a read of a key the object does not own falls through to
      [Object.prototype], and an assignment to [__proto__] is taken by the
      prototype's setter.
    - [getDescendantFolderIds] and [renderFolderItem] recurse along the
      data, one activation per level of nesting.  Their first argument is
      the room the engine's call stack has for such activations; a call
      that needs more produces no result (the engine raises [RangeError]),
      and so does a recursion that never ends.
    - The host capabilities ([api.storage], [JSON]) are parameters.
    - Each [async] operation is modelled run to completion: the host
      dispatches one UI event at a time.
    - A mutation's call to [renderList()], its console output and the
      [simplyterm-folders-changed] event are recorded in [trace]; the tree
      that [renderList()] draws is the projection [renderList] below.

    The repository also carries an earlier revision of the same file
    (index.js), whose [updateFolder] has no circular-reference check; it is
    embedded as [Legacy.updateFolder] for comparison. *)

From stdpp Require Import gmap strings list fin_maps relations sorting.
From Stdlib Require Import ZArith Lia Ascii.

Local Open Scope string_scope.
Local Open Scope Z_scope.
Local Open Scope list_scope.

(** ** Data model *)

Record Folder := mkFolder {
  id : string;
  name : string;
  color : string;
  parentId : option string;
  order : Z
}.

Global Instance Folder_eq_dec : EqDecision Folder.
Proof. solve_decision. Defined.

Record Session := mkSession {
  sid : string;
  sname : option string
}.

(** What the plugin does to the outside world, in the order it does it. *)
Inductive Effect :=
  | ConsoleWarn (msg : string)
  | ConsoleError (msg : string)
  | RenderList
  | FoldersChanged.

Record State := mkState {
  folders : list Folder;
  sessionFolders : gmap string string;
  expandedFolders : gset string;
  disk : gmap string string;
  trace : list Effect
}.

Definition set_folders (v : list Folder) (st : State) : State :=
  mkState v (sessionFolders st) (expandedFolders st) (disk st) (trace st).
Definition set_sessionFolders (v : gmap string string) (st : State) : State :=
  mkState (folders st) v (expandedFolders st) (disk st) (trace st).
Definition set_expandedFolders (v : gset string) (st : State) : State :=
  mkState (folders st) (sessionFolders st) v (disk st) (trace st).
Definition set_disk (v : gmap string string) (st : State) : State :=
  mkState (folders st) (sessionFolders st) (expandedFolders st) v (trace st).
Definition emit (e : Effect) (st : State) : State :=
  mkState (folders st) (sessionFolders st) (expandedFolders st) (disk st)
          (trace st ++ [e]).

(** JS truthiness of a string, and of a nullable string. *)
Definition truthy (s : string) : bool := negb (bool_decide (s = "")).
Definition truthy_opt (o : option string) : bool :=
  match o with Some s => truthy s | None => false end.

(** ** Plain objects used as maps

    [sessionFolders] is created by [{}] or by [JSON.parse], so its prototype
    is [Object.prototype].  A property read [o[k]] gives the object's own
    property when there is one and otherwise what the prototype holds under
    [k]: a function, or for [__proto__] the prototype object itself. *)
Definition object_prototype_names : list string :=
  ["constructor"; "__defineGetter__"; "__defineSetter__"; "hasOwnProperty";
   "__lookupGetter__"; "__lookupSetter__"; "isPrototypeOf";
   "propertyIsEnumerable"; "toString"; "valueOf"; "__proto__";
   "toLocaleString"].

(** What a read of [sessionFolders] can give: a string stored in the
    object, or the member of [Object.prototype] of that name. *)
Inductive JSValue :=
  | VString (s : string)
  | VInherited (k : string).

Global Instance JSValue_eq_dec : EqDecision JSValue.
Proof. solve_decision. Defined.

(** [o[k]]; [None] is [undefined]. *)
Definition js_get (o : gmap string string) (k : string) : option JSValue :=
  match o !! k with
  | Some v => Some (VString v)
  | None =>
      if bool_decide (k ∈ object_prototype_names)
      then Some (VInherited k) else None
  end.

(** [o[k] = v] for a string [v]: an own property is overwritten; without
    one, the assignment creates it, except under [__proto__], where the
    prototype's setter takes the value and, as it is no object, drops it. *)
Definition js_set (o : gmap string string) (k v : string)
  : gmap string string :=
  if bool_decide (k = "__proto__" ∧ o !! k = None) then o else <[k := v]> o.

(** [delete o[k]] removes an own property. *)
Definition js_delete (o : gmap string string) (k : string)
  : gmap string string :=
  delete k o.

(** Truthiness of what a read gives: objects and functions are truthy. *)
Definition js_truthy (v : option JSValue) : bool :=
  match v with
  | Some (VString s) => truthy s
  | Some (VInherited _) => true
  | None => false
  end.

(** ** Outcomes of a call

    A call returns a value in a state, throws in a state (assignments made
    before the throw stay made), or produces no result: its recursion does
    not end, or does not end within the call stack. *)
Inductive outcome (A : Type) :=
  | Returned (a : A) (st : State)
  | Thrown (e : string) (st : State)
  | Diverged.
Arguments Returned {A} a st.
Arguments Thrown {A} e st.
Arguments Diverged {A}.

Definition M (A : Type) : Type := State → outcome A.

Definition ret {A} (a : A) : M A := λ st, Returned a st.
Definition bind {A B} (m : M A) (k : A → M B) : M B :=
  λ st, match m st with
        | Returned a st' => k a st'
        | Thrown e st' => Thrown e st'
        | Diverged => Diverged
        end.
Definition throw {A} (e : string) : M A := λ st, Thrown e st.
Definition try_catch {A} (body : M A) (handler : string → M A) : M A :=
  λ st, match body st with
        | Thrown e st' => handler e st'
        | r => r
        end.
Definition get_state : M State := λ st, Returned st st.
Definition modify (f : State → State) : M unit := λ st, Returned tt (f st).
Definition lift_fuel {A} (o : option A) : M A :=
  λ st, match o with Some a => Returned a st | None => Diverged end.

Declare Scope js_scope.
Delimit Scope js_scope with js.
Notation "x <- m ;; k" := (bind m (λ x, k))
  (at level 100, m at next level, right associativity) : js_scope.
Notation "m ;;; k" := (bind m (λ _, k))
  (at level 100, right associativity) : js_scope.
Local Open Scope js_scope.

(** A [for (const x of xs)] loop whose body may fail to return. *)
Fixpoint for_of {A S : Type} (xs : list A) (body : A → S → option S) (s : S)
  : option S :=
  match xs with
  | [] => Some s
  | x :: rest =>
      match body x s with
      | Some s' => for_of rest body s'
      | None => None
      end
  end.

(** ** The hierarchy model: pure queries *)

(** [folders.filter(f => f.parentId === folderId)] *)
Definition childrenOf (fs : list Folder) (folderId : string) : list Folder :=
  filter (λ f, parentId f = Some folderId) fs.

(** [getDescendantFolderIds(folderId)], on a call stack with room for
    [fuel] nested activations of it. *)
Fixpoint getDescendantFolderIds (fuel : nat) (fs : list Folder)
    (folderId : string) : option (list string) :=
  match fuel with
  | O => None
  | S k =>
      let children := childrenOf fs folderId in
      for_of children
        (λ child ids,
           match getDescendantFolderIds k fs (id child) with
           | Some sub => Some (ids ++ [id child] ++ sub)
           | None => None
           end)
        []
  end.

(** [getSessionFolder(sessionId)]: [sessionFolders[sessionId] || null] *)
Definition getSessionFolder (st : State) (sessionId : string)
  : option JSValue :=
  let v := js_get (sessionFolders st) sessionId in
  if js_truthy v then v else None.

(** [getFolders()] *)
Definition getFolders (st : State) : list Folder := folders st.

(** ** The parentId relation *)

(** [is_child fs c p]: some record with id [c] names [p] as its parent. *)
Definition is_child (fs : list Folder) (c p : string) : Prop :=
  ∃ f, f ∈ fs ∧ id f = c ∧ parentId f = Some p.

(** [descendant fs d a]: [d] reaches [a] in one or more parent steps;
    read the other way, [a] is an ancestor of [d]. *)
Definition descendant (fs : list Folder) : relation string := tc (is_child fs).

(** No folder is its own ancestor. *)
Definition acyclic (fs : list Folder) : Prop := ∀ x, ¬ descendant fs x x.

(** The child forest below an id, and its pre-order traversal: the
    specification's reading of "depth-first pre-order enumeration". *)
#[warnings="-register-all"]
Inductive tree := Node (label : string) (kids : list tree).

Definition label (t : tree) : string :=
  match t with Node l _ => l end.

Fixpoint preorder (t : tree) : list string :=
  match t with
  | Node x ts => x :: flat_map preorder ts
  end.

Fixpoint childForest (fuel : nat) (fs : list Folder) (x : string)
  : option (list tree) :=
  match fuel with
  | O => None
  | S k =>
      mapM (λ child, Node (id child) <$> childForest k fs (id child))
           (childrenOf fs x)
  end.

(** The subtree below [x] has height less than [n]. *)
Inductive bounded_height (fs : list Folder) : nat → string → Prop :=
  | bounded_height_step n x :
      (∀ c, c ∈ fs → parentId c = Some x → bounded_height fs n (id c)) →
      bounded_height fs (S n) x.

(** ** The host

    [api.storage] and the [JSON] object, as the plugin uses them.  A read or
    a write either succeeds ([inl]) or throws ([inr]); [JSON.parse] throws
    ([None]) on text that is not JSON.  Text that is JSON but not a document
    of the expected shape is stored by the plugin as it is, and lies outside
    this typed model. *)
Class Host := {
  storage_read : gmap string string → string → string + string;
  storage_write :
    gmap string string → string → string → gmap string string + string;
  JSON_parse_folders : string → option (list Folder);
  JSON_parse_sessionFolders : string → option (gmap string string);
  JSON_parse_ids : string → option (list string);
  JSON_stringify_folders : list Folder → string;
  JSON_stringify_sessionFolders : gmap string string → string;
  JSON_stringify_ids : list string → string
}.

Record Updates := mkUpdates {
  upd_name : option string;
  upd_color : option string;
  upd_parentId : option (option string);
  upd_order : option Z
}.

Definition with_name (v : string) (f : Folder) : Folder :=
  mkFolder (id f) v (color f) (parentId f) (order f).
Definition with_color (v : string) (f : Folder) : Folder :=
  mkFolder (id f) (name f) v (parentId f) (order f).
Definition with_parentId (v : option string) (f : Folder) : Folder :=
  mkFolder (id f) (name f) (color f) v (order f).
Definition with_order (v : Z) (f : Folder) : Folder :=
  mkFolder (id f) (name f) (color f) (parentId f) v.

(** [folder.field = v] on the object at index [i] of [folders]. *)
Definition assign (i : nat) (g : Folder → Folder) : M unit :=
  modify (λ st, set_folders (alter g i (folders st)) st).

(** [if (updates.field !== undefined) ...] *)
Definition when_present {A} (o : option A) (k : A → M unit) : M unit :=
  match o with
  | Some v => k v
  | None => ret tt
  end.

Definition default_color : string := "#6c7086".
Definition circular_warning : string :=
  "[Folders] Cannot set parent: would create circular reference".

Section Operations.
Context `{host : Host}.

Definition read (key : string) : M string :=
  λ st, match storage_read (disk st) key with
        | inl content => Returned content st
        | inr e => Thrown e st
        end.

Definition write (key content : string) : M unit :=
  λ st, match storage_write (disk st) key content with
        | inl d => Returned tt (set_disk d st)
        | inr e => Thrown e st
        end.

Definition parse {A} (p : string → option A) (content : string) : M A :=
  λ st, match p content with
        | Some v => Returned v st
        | None => Thrown "SyntaxError" st
        end.

(** *** Persistence adapter *)

Definition loadFolders : M unit :=
  try_catch
    (content <- read "folders.json";;
     v <- parse JSON_parse_folders content;;
     modify (set_folders v))
    (λ _, modify (set_folders [])).

Definition saveFolders : M unit :=
  try_catch
    (st <- get_state;;
     write "folders.json" (JSON_stringify_folders (folders st)))
    (λ _, modify (emit (ConsoleError "[Folders] Failed to save folders:"))).

Definition loadSessionFolders : M unit :=
  try_catch
    (content <- read "session-folders.json";;
     v <- parse JSON_parse_sessionFolders content;;
     modify (set_sessionFolders v))
    (λ _, modify (set_sessionFolders ∅)).

Definition saveSessionFolders : M unit :=
  try_catch
    (st <- get_state;;
     write "session-folders.json"
           (JSON_stringify_sessionFolders (sessionFolders st)))
    (λ _, modify
            (emit (ConsoleError "[Folders] Failed to save session-folders:"))).

Definition loadExpandedFolders : M unit :=
  try_catch
    (content <- read "expanded-folders.json";;
     ids <- parse JSON_parse_ids content;;
     modify (set_expandedFolders (list_to_set ids)))
    (λ _, ret tt).

(** The loading prefix of [init]. *)
Definition load : M unit :=
  loadFolders;;;
  loadSessionFolders;;;
  loadExpandedFolders;;;
  st <- get_state;;
  if bool_decide (size (expandedFolders st) = 0%nat)
  then modify (λ st, set_expandedFolders
                       (list_to_set (id <$> folders st) ∪ expandedFolders st)
                       st)
  else ret tt.

(** *** Hierarchy model: mutations *)

(** The id is
    [`folder-${Date.now()}-${Math.random().toString(36).substring(2, 11)}`];
    the clock reading and the random digits are inputs. *)
Definition fresh_folder_id (now rnd : string) : string :=
  "folder-" +:+ now +:+ "-" +:+ rnd.

Definition createFolder (now rnd : string) (nm : string)
    (col pid : option string) : M Folder :=
  st <- get_state;;
  let folder :=
    mkFolder (fresh_folder_id now rnd) nm
             (match col with
              | Some c => if truthy c then c else default_color
              | None => default_color
              end)
             pid
             (Z.of_nat (length (filter (λ f, parentId f = pid) (folders st))))
  in
  modify (λ st, set_folders (folders st ++ [folder]) st);;;
  modify (λ st, set_expandedFolders ({[id folder]} ∪ expandedFolders st) st);;;
  saveFolders;;;
  modify (emit RenderList);;;
  modify (emit FoldersChanged);;;
  ret folder.

(** [updates.parentId && (updates.parentId === id ||
     getDescendantFolderIds(id).includes(updates.parentId))] *)
Definition wouldBeCircular (fuel : nat) (fid : string) (p : option string)
  : M bool :=
  match p with
  | Some x =>
      if truthy x then
        if bool_decide (x = fid) then ret true
        else
          st <- get_state;;
          ds <- lift_fuel (getDescendantFolderIds fuel (folders st) fid);;
          ret (bool_decide (x ∈ ds))
      else ret false
  | None => ret false
  end.

Definition updateFolder (fuel : nat) (fid : string) (updates : Updates)
  : M (option Folder) :=
  st <- get_state;;
  match list_find (λ f, id f = fid) (folders st) with
  | None => ret None
  | Some (i, _) =>
      when_present (upd_name updates) (λ v, assign i (with_name v));;;
      when_present (upd_color updates) (λ v, assign i (with_color v));;;
      rejected <-
        match upd_parentId updates with
        | Some p =>
            circular <- wouldBeCircular fuel fid p;;
            if (circular : bool) then
              modify (emit (ConsoleWarn circular_warning));;;
              ret true
            else
              assign i (with_parentId p);;;
              ret false
        | None => ret false
        end;;
      if (rejected : bool) then ret None
      else
        when_present (upd_order updates) (λ v, assign i (with_order v));;;
        saveFolders;;;
        modify (emit RenderList);;;
        modify (emit FoldersChanged);;;
        st' <- get_state;;
        ret (folders st' !! i)
  end.

Definition deleteFolder (fuel : nat) (fid : string) : M unit :=
  st <- get_state;;
  ds <- lift_fuel (getDescendantFolderIds fuel (folders st) fid);;
  let allFolderIds := fid :: ds in
  modify (λ st, set_sessionFolders
                  (filter (λ kv, kv.2 ∉ allFolderIds) (sessionFolders st))
                  st);;;
  saveSessionFolders;;;
  modify (λ st, set_folders
                  (filter (λ f, id f ∉ allFolderIds) (folders st)) st);;;
  saveFolders;;;
  modify (emit RenderList);;;
  modify (emit FoldersChanged).

Definition moveSessionToFolder (sessionId : string)
    (folderId : option string) : M unit :=
  match folderId with
  | Some f =>
      if truthy f
      then modify (λ st, set_sessionFolders
                           (js_set (sessionFolders st) sessionId f) st)
      else modify (λ st, set_sessionFolders
                           (js_delete (sessionFolders st) sessionId) st)
  | None => modify (λ st, set_sessionFolders
                            (js_delete (sessionFolders st) sessionId) st)
  end;;;
  saveSessionFolders;;;
  modify (emit RenderList);;;
  modify (emit FoldersChanged).

End Operations.

(** ** The earlier revision of [updateFolder] (index.js)

    Same partial update, no circular-reference check and no change event. *)
Module Legacy.
Section LegacyOperations.
Context `{host : Host}.

Definition updateFolder (fid : string) (updates : Updates)
  : M (option Folder) :=
  st <- get_state;;
  match list_find (λ f, id f = fid) (folders st) with
  | None => ret None
  | Some (i, _) =>
      when_present (upd_name updates) (λ v, assign i (with_name v));;;
      when_present (upd_color updates) (λ v, assign i (with_color v));;;
      when_present (upd_parentId updates) (λ v, assign i (with_parentId v));;;
      when_present (upd_order updates) (λ v, assign i (with_order v));;;
      saveFolders;;;
      modify (emit RenderList);;;
      st' <- get_state;;
      ret (folders st' !! i)
  end.
End LegacyOperations.
End Legacy.

(** ** View projector *)

(** [Array.prototype.sort(cmp)].  The language guarantees a stable sort, and
    for a comparator that is a total preorder the result of a stable sort is
    determined; it is computed here by insertion from the right. *)
Fixpoint sort_insert {A} (cmp : A → A → Z) (x : A) (l : list A) : list A :=
  match l with
  | [] => [x]
  | y :: r => if cmp x y <=? 0 then x :: y :: r else y :: sort_insert cmp x r
  end.

Definition js_sort {A} (cmp : A → A → Z) (l : list A) : list A :=
  foldr (sort_insert cmp) [] l.

(** [(a, b) => a.order - b.order] *)
Definition by_order (a b : Folder) : Z := order a - order b.

(** One [.folder-item] element: the header data, and the content block
    (child folders, then sessions), which is there only when the folder is
    expanded and has content. *)
#[warnings="-register-all"]
Inductive RenderNode :=
  FolderItem (folder : Folder) (depth : nat) (isExpanded hasContent : bool)
             (count : nat) (childItems : list RenderNode)
             (sessionItems : list Session).

Definition item_folder (n : RenderNode) : Folder :=
  match n with FolderItem f _ _ _ _ _ _ => f end.

(** [sessions.filter(s => sessionFolders[s.id] === folder.id)] *)
Definition sessionsIn (st : State) (sessions : list Session) (fid : string)
  : list Session :=
  filter (λ s, js_get (sessionFolders st) (sid s) = Some (VString fid))
         sessions.

(** [renderFolderItem(folder, sessions, depth)] *)
Fixpoint renderFolderItem (fuel : nat) (st : State) (sessions : list Session)
    (folder : Folder) (depth : nat) : option RenderNode :=
  match fuel with
  | O => None
  | S k =>
      let isExpanded := bool_decide (id folder ∈ expandedFolders st) in
      let folderSessions := sessionsIn st sessions (id folder) in
      let childFolders := childrenOf (folders st) (id folder) in
      let hasContent :=
        bool_decide (0 < length folderSessions)%nat
        || bool_decide (0 < length childFolders)%nat in
      if isExpanded && hasContent then
        match
          for_of (js_sort by_order childFolders)
            (λ child html,
               match renderFolderItem k st sessions child (depth + 1) with
               | Some item => Some (html ++ [item])
               | None => None
               end)
            []
        with
        | Some kids =>
            Some (FolderItem folder depth isExpanded hasContent
                             (length folderSessions) kids folderSessions)
        | None => None
        end
      else
        Some (FolderItem folder depth isExpanded hasContent
                         (length folderSessions) [] [])
  end.

Record View := mkView {
  items : list RenderNode;
  uncategorized : option (list Session);
  noFoldersYet : bool
}.

(** [folders.filter(f => !f.parentId).sort(...)] *)
Definition rootFolders (st : State) : list Folder :=
  js_sort by_order (filter (λ f, truthy_opt (parentId f) = false) (folders st)).

(** [renderList()], for a mounted container and the host's session list. *)
Definition renderList (fuel : nat) (st : State) (sessions : list Session)
  : option View :=
  let unfolderedSessions :=
    filter (λ s, js_truthy (js_get (sessionFolders st) (sid s)) = false)
           sessions in
  match
    for_of (rootFolders st)
      (λ folder html,
         match renderFolderItem fuel st sessions folder 0 with
         | Some item => Some (html ++ [item])
         | None => None
         end)
      []
  with
  | Some html =>
      if bool_decide (length (folders st) = 0%nat)
      then Some (mkView [] None true)
      else
        Some (mkView html
                (if bool_decide (0 < length unfolderedSessions)%nat
                 then Some unfolderedSessions else None)
                false)
  | None => None
  end.

(** The folders of a sibling group as rendered, against the group as it
    stands in [folders]: ascending [order], and within one [order] value
    the sequence of the folder list. *)
Definition sorted_stably (group rendered : list Folder) : Prop :=
  StronglySorted (λ a b, order a ≤ order b) rendered
  ∧ rendered ≡ₚ group
  ∧ ∀ k, filter (λ f, order f = k) rendered = filter (λ f, order f = k) group.

(** Throughout a rendered item, the child folders shown under a folder are
    all the child folders it has in the store, sorted stably, when the
    folder is in [expandedFolders], and none when it is not. *)
Fixpoint groups_sorted (st : State) (n : RenderNode) : Prop :=
  match n with
  | FolderItem f _ _ _ _ kids _ =>
      (id f ∈ expandedFolders st →
       sorted_stably (childrenOf (folders st) (id f)) (item_folder <$> kids))
      ∧ (id f ∉ expandedFolders st → kids = [])
      ∧ (fix all (l : list RenderNode) : Prop :=
           match l with
           | [] => True
           | k :: r => groups_sorted st k ∧ all r
           end) kids
  end.

(** The child items of a rendered item. *)
Definition item_children (n : RenderNode) : list RenderNode :=
  match n with FolderItem _ _ _ _ _ kids _ => kids end.



(** ** Reachable states *)

(** The id drawn for a new folder occurs nowhere in the store: the clock
    and the random digits are taken to make ids unique, as the data model
    has it. *)
Definition unused_id (g : string) (pid : option string) (fs : list Folder)
  : Prop :=
  (g ∉ (id <$> fs)) ∧ (Some g ∉ (parentId <$> fs)) ∧ (pid ≠ Some g).

Inductive step `{host : Host} : State → State → Prop :=
  | step_createFolder now rnd nm col pid st f st' :
      unused_id (fresh_folder_id now rnd) pid (folders st) →
      createFolder now rnd nm col pid st = Returned f st' →
      step st st'
  | step_updateFolder fuel fid updates st r st' :
      updateFolder fuel fid updates st = Returned r st' →
      step st st'
  | step_deleteFolder fuel fid st st' :
      deleteFolder fuel fid st = Returned tt st' →
      step st st'
  | step_moveSessionToFolder sessionId folderId st st' :
      moveSessionToFolder sessionId folderId st = Returned tt st' →
      step st st'.

(** No folder carries the empty string as its id. *)
Definition ids_nonempty (fs : list Folder) : Prop :=
  ∀ f, f ∈ fs → id f ≠ "".

(** ** Sample host and stores *)

(** A host whose storage is out of reach: every read and write throws. *)
Definition offlineHost : Host := {|
  storage_read := λ _ _, inr "storage unavailable";
  storage_write := λ _ _ _, inr "storage unavailable";
  JSON_parse_folders := λ _, None;
  JSON_parse_sessionFolders := λ _, None;
  JSON_parse_ids := λ _, None;
  JSON_stringify_folders := λ _, "";
  JSON_stringify_sessionFolders := λ _, "";
  JSON_stringify_ids := λ _, ""
|}.

Definition store (fs : list Folder) (sf : gmap string string) : State :=
  mkState fs sf ∅ ∅ [].

Definition folderA : Folder := mkFolder "A" "Work" "#6c7086" None 0.
Definition folderB : Folder := mkFolder "B" "Servers" "#6c7086" (Some "A") 0.
Definition folderC : Folder := mkFolder "C" "Home" "#6c7086" None 1.
Definition sampleFolders : list Folder := [folderA; folderB; folderC].
Definition sampleStore : State :=
  store sampleFolders {[ "s1" := "A"; "s2" := "B"; "s3" := "C" ]}.

(** A folder whose id is the empty string. *)
Definition blankFolder : Folder := mkFolder "" "Blank" "#6c7086" None 0.
Definition blankStore : State := store [blankFolder] ∅.

(** A store with every sample folder expanded, and two sessions. *)
Definition openStore : State :=
  mkState [folderC; folderA; folderB] {[ "s1" := "A" ]}
          {[ "A"; "B"; "C" ]} ∅ [].
Definition sampleSessions : list Session :=
  [mkSession "s1" (Some "db"); mkSession "s2" None].

(** ** Vocabulary for the statements *)

(** The [(id, parentId)] pairs of the folder list, in order. *)
Definition edges (fs : list Folder) : list (string * option string) :=
  (λ f, (id f, parentId f)) <$> fs.

(** The update object [{parentId: X}]. *)
Definition reparent (X : option string) : Updates :=
  mkUpdates None None (Some X) None.

Definition opt_apply {A} (g : A → Folder → Folder) (o : option A) (f : Folder)
  : Folder :=
  match o with
  | Some v => g v f
  | None => f
  end.

(** The fields present in [updates], written over [f]. *)
Definition apply_updates (u : Updates) (f : Folder) : Folder :=
  opt_apply with_order (upd_order u)
    (opt_apply with_parentId (upd_parentId u)
       (opt_apply with_color (upd_color u)
          (opt_apply with_name (upd_name u) f))).

(** The three components of the model agree between two states. *)
Definition same_model (st st' : State) : Prop :=
  folders st' = folders st
  ∧ sessionFolders st' = sessionFolders st
  ∧ expandedFolders st' = expandedFolders st.

(** The update asks for no re-parenting that the guard refuses. *)
Definition no_cyclic_reparent (fuel : nat) (fs : list Folder) (fid : string)
    (u : Updates) : Prop :=
  match upd_parentId u with
  | Some (Some x) =>
      truthy x = true →
      x ≠ fid ∧ ∃ ds, getDescendantFolderIds fuel fs fid = Some ds ∧ x ∉ ds
  | _ => True
  end.

(** What the circular-reference check of [updateFolder] answers on a folder
    list: refuse, let through, or no answer when the enumeration does not
    return. *)
Definition guard_refuses (fuel : nat) (fs : list Folder) (fid : string)
    (u : Updates) : option bool :=
  match upd_parentId u with
  | Some (Some x) =>
      if truthy x then
        if bool_decide (x = fid) then Some true
        else (λ ds, bool_decide (x ∈ ds))
               <$> getDescendantFolderIds fuel fs fid
      else Some false
  | _ => Some false
  end.

(** The name and color of [updates], written over [f]: what has been
    assigned by the time the check runs. *)
Definition apply_name_color (u : Updates) (f : Folder) : Folder :=
  opt_apply with_color (upd_color u) (opt_apply with_name (upd_name u) f).

(** A check for acyclicity that computes: every folder's descendant
    enumeration returns within [length fs + 1] levels and does not list the
    folder itself. *)
Definition acyclicb (fs : list Folder) : bool :=
  forallb (λ f, match getDescendantFolderIds (S (length fs)) fs (id f) with
                | Some ds => negb (bool_decide (id f ∈ ds))
                | None => false
                end) fs.

Section StoreAfter.
Context `{host : Host}.

(** The state [saveFolders] leaves behind. *)
Definition after_saveFolders (st : State) : State :=
  match storage_write (disk st) "folders.json"
                      (JSON_stringify_folders (folders st)) with
  | inl d => set_disk d st
  | inr _ => emit (ConsoleError "[Folders] Failed to save folders:") st
  end.

(** The state [saveSessionFolders] leaves behind. *)
Definition after_saveSessionFolders (st : State) : State :=
  match storage_write (disk st) "session-folders.json"
          (JSON_stringify_sessionFolders (sessionFolders st)) with
  | inl d => set_disk d st
  | inr _ =>
      emit (ConsoleError "[Folders] Failed to save session-folders:") st
  end.

(** The tail shared by the folder mutations: save, re-render, notify. *)
Definition published (st : State) : State :=
  emit FoldersChanged (emit RenderList (after_saveFolders st)).
End StoreAfter.

(** Loading the document under [key] fails: the read throws, or the text
    read does not parse. *)
Definition load_fails `{host : Host} {A} (key : string) (p : string → option A)
    (st : State) : Prop :=
  match storage_read (disk st) key with
  | inl content => p content = None
  | inr _ => True
  end.

(** ** More of the plugin: escaping, expansion state, prompts, home panel *)


(** [s.replace(/c/g, rep)] for a one-character pattern.  The characters the
    plugin replaces are ASCII, so replacing bytes of the UTF-8 text and
    replacing code units of the JS string agree. *)
Fixpoint replace_global (c : ascii) (rep : string) (s : string) : string :=
  match s with
  | EmptyString => EmptyString
  | String a r =>
      if decide (a = c) then rep +:+ replace_global c rep r
      else String a (replace_global c rep r)
  end.

(** The double-quote character. *)
Definition dquote : ascii := "034"%char.

(** [escapeAttr(str)] *)
Definition escapeAttr (str : string) : string :=
  replace_global ">" "&gt;"
    (replace_global "<" "&lt;"
       (replace_global "'" "&#39;"
          (replace_global dquote "&quot;"
             (replace_global "&" "&amp;" str)))).

(** The characters of a string, and membership of a character. *)
Fixpoint chars (s : string) : list ascii :=
  match s with
  | EmptyString => []
  | String a r => a :: chars r
  end.

(** The entity (or the character itself) that stands for one character in
    escaped text. *)
Definition escape_char (a : ascii) : string :=
  if decide (a = "&"%char) then "&amp;"
  else if decide (a = dquote) then "&quot;"
  else if decide (a = "'"%char) then "&#39;"
  else if decide (a = "<"%char) then "&lt;"
  else if decide (a = ">"%char) then "&gt;"
  else String a EmptyString.

Fixpoint escape_chars (s : string) : string :=
  match s with
  | EmptyString => EmptyString
  | String a r => escape_char a +:+ escape_chars r
  end.

(** [Object.values(sessionFolders).filter(id => id === folderId).length] *)
Definition sessionCountOf (st : State) (folderId : string) : nat :=
  length (filter (λ v, v = folderId) (map_to_list (sessionFolders st)).*2).

(** [Object.keys(sessionFolders).filter(sid => sessionFolders[sid] ===
    folderId)]; the order of the keys is not modelled. *)
Definition sessionIdsOf (st : State) (folderId : string) : list string :=
  (filter (λ kv, kv.2 = folderId) (map_to_list (sessionFolders st))).*1.

(** What the delete dialog tells the user. *)
Record DeletePrompt := mkDeletePrompt {
  prompt_folder : Folder;
  prompt_childCount : nat;
  prompt_sessionCount : nat
}.

Section MoreOperations.
Context `{host : Host}.

(** [saveExpandedFolders()] *)
Definition saveExpandedFolders : M unit :=
  try_catch
    (st <- get_state;;
     write "expanded-folders.json"
           (JSON_stringify_ids (elements (expandedFolders st))))
    (λ _, modify
            (emit (ConsoleError "[Folders] Failed to save expanded state:"))).

(** [toggleFolder(folderId)].  It calls [saveExpandedFolders()] without
    [await]: the document text is computed at the call, [renderList()]
    runs next, and the write settles, with its error log, after that. *)
Definition toggleFolder (folderId : string) : M unit :=
  st <- get_state;;
  (if bool_decide (folderId ∈ expandedFolders st)
   then modify (λ st, set_expandedFolders
                        (expandedFolders st ∖ {[folderId]}) st)
   else modify (λ st, set_expandedFolders
                        ({[folderId]} ∪ expandedFolders st) st));;;
  st <- get_state;;
  let content := JSON_stringify_ids (elements (expandedFolders st)) in
  modify (emit RenderList);;;
  try_catch
    (write "expanded-folders.json" content)
    (λ _, modify
            (emit (ConsoleError "[Folders] Failed to save expanded state:"))).

(** [cleanup()] *)
Definition cleanup : M unit :=
  modify (λ st, mkState [] ∅ ∅ (disk st) (trace st)).

(** Unloading the plugin and initialising it again: [cleanup()], then the
    loads of [init]. *)
Definition restart : M unit := cleanup;;; load.

(** The three saves in a row. *)
Definition saveAll : M unit :=
  saveFolders;;; saveSessionFolders;;; saveExpandedFolders.

(** [showAddFolderPrompt()]: [answer] is what [api.showPrompt] resolves to,
    [trim] is [String.prototype.trim]. *)
Definition showAddFolderPrompt (trim : string → string)
    (answer : option string) (now rnd : string) : M unit :=
  match answer with
  | Some nm =>
      if truthy nm && truthy (trim nm)
      then createFolder now rnd (trim nm) None None;;; ret tt
      else ret tt
  | None => ret tt
  end.

(** The click handler of a folder's delete button in the sidebar tree:
    [showModal] is the dialog, resolving to the clicked button's value
    ([Some b], by truthiness) or rejecting ([None]). *)
Definition onDeleteClick (fuel : nat) (folderId : string)
    (showModal : DeletePrompt → option bool) : M unit :=
  st <- get_state;;
  match list_find (λ f, id f = folderId) (folders st) with
  | None => ret tt
  | Some (_, folder) =>
      ds <- lift_fuel (getDescendantFolderIds fuel (folders st) folderId);;
      let prompt :=
        mkDeletePrompt folder (length ds) (sessionCountOf st folderId) in
      try_catch
        (match showModal prompt with
         | Some true => deleteFolder fuel folderId
         | Some false => ret tt
         | None => throw "cancelled"
         end)
        (λ _, ret tt)
  end.

End MoreOperations.

(** One row of the home panel's folder column. *)
Record HomeTab := mkHomeTab {
  tab_folder : Folder;
  tab_count : nat;
  tab_active : bool
}.

Record HomeView := mkHomeView {
  all_active : bool;
  all_count : nat;
  tabs : list HomeTab
}.

(** [renderHomeFolders()], for the host's session list and the current
    [activeFolderFilter]. *)
Definition renderHomeFolders (st : State) (sessions : list Session)
    (activeFolderFilter : option string) : HomeView :=
  mkHomeView
    (negb (truthy_opt activeFolderFilter))
    (length sessions)
    ((λ folder,
        mkHomeTab folder (sessionCountOf st (id folder))
                  (bool_decide (activeFolderFilter = Some (id folder))))
       <$> rootFolders st).

(** The detail of the [home-panel-session-filter] event. *)
Record FilterDetail := mkFilterDetail {
  detail_sessionIds : option (list string);
  detail_label : option string
}.

(** [dispatchFolderFilter(folderId, folderName)]: the new
    [activeFolderFilter] and the event sent. *)
Definition dispatchFolderFilter (st : State) (folderId folderName : option string)
  : option string * FilterDetail :=
  (folderId,
   mkFilterDetail
     (match folderId with
      | Some f => if truthy f then Some (sessionIdsOf st f) else None
      | None => None
      end)
     (if truthy_opt folderName then folderName else None)).

(** The sessions a rendered tree shows, folder by folder. *)
Fixpoint item_sessions (n : RenderNode) : list Session :=
  match n with
  | FolderItem _ _ _ _ _ kids ss =>
      ss ++ (fix all (l : list RenderNode) : list Session :=
               match l with
               | [] => []
               | k :: r => item_sessions k ++ all r
               end) kids
  end.

Definition view_sessions (v : View) : list Session :=
  flat_map item_sessions (items v) ++ default [] (uncategorized v).

(** The number in an item's [folder-count] badge. *)
Definition item_count (n : RenderNode) : nat :=
  match n with FolderItem _ _ _ _ c _ _ => c end.

(** One row of the move-to-folder picker: the folder id its click moves
    the session to ([None] for the first row, "(No folder)"), its label,
    and whether it is shown as the current choice. *)
Record MoveOption := mkMoveOption {
  opt_target : option string;
  opt_label : string;
  opt_current : bool
}.

(** [showMoveToFolderMenu(sessionId)]: the rows of the picker, or [None]
    when there is no folder and only the notification is shown. *)
Definition showMoveToFolderMenu (st : State) (sessionId : string)
  : option (list MoveOption) :=
  if bool_decide (length (folders st) = 0%nat) then None
  else
    let currentFolderId := js_get (sessionFolders st) sessionId in
    Some (mkMoveOption None "(No folder)"
                       (negb (js_truthy currentFolderId))
          :: ((λ f, mkMoveOption (Some (id f)) (name f)
                      (bool_decide (currentFolderId = Some (VString (id f)))))
                <$> folders st)).

(** The click handler of a picker row, up to the Escape key event that
    closes the modal afterwards. *)
Definition onMoveOptionClick `{host : Host} (sessionId : string)
    (o : MoveOption) : M unit :=
  moveSessionToFolder sessionId (opt_target o).

(** *** A storage that keeps what it is given

    What the plugin relies on between a save and the next load: a write
    stores the text under its key, a read hands back the last text stored
    and throws for a key never written, and [JSON.parse] inverts
    [JSON.stringify] on the three documents. *)
Record LawfulHost (host : Host) : Prop := mkLawfulHost {
  lawful_write :
    ∀ d k v, storage_write d k v = inl (<[k := v]> d);
  lawful_read_Some :
    ∀ d k v, d !! k = Some v → storage_read d k = inl v;
  lawful_read_None :
    ∀ d k, d !! k = None → ∃ e, storage_read d k = inr e;
  lawful_folders :
    ∀ l, JSON_parse_folders (JSON_stringify_folders l) = Some l;
  lawful_sessionFolders :
    ∀ m, JSON_parse_sessionFolders (JSON_stringify_sessionFolders m) = Some m;
  lawful_ids :
    ∀ l, JSON_parse_ids (JSON_stringify_ids l) = Some l
}.

(** The stored documents read back as the folder list and the assignment
    map in memory. *)
Definition persisted `{host : Host} (st : State) : Prop :=
  (∃ text, disk st !! "folders.json" = Some text
           ∧ JSON_parse_folders text = Some (folders st))
  ∧ (∃ text, disk st !! "session-folders.json" = Some text
             ∧ JSON_parse_sessionFolders text = Some (sessionFolders st)).

(** No two folders share an id. *)
Definition unique_ids (fs : list Folder) : Prop := NoDup (id <$> fs).

(** A sample host that keeps documents in memory.  Its text format is a
    string of binary digits numbering the value; any format that parses
    back what it prints would do. *)
Fixpoint bits_of_pos (p : positive) : string :=
  match p with
  | xH => EmptyString
  | xO q => String "0" (bits_of_pos q)
  | xI q => String "1" (bits_of_pos q)
  end.

Fixpoint pos_of_bits (s : string) : positive :=
  match s with
  | EmptyString => xH
  | String a r =>
      if decide (a = "1"%char) then xI (pos_of_bits r) else xO (pos_of_bits r)
  end.

Global Instance Folder_countable : Countable Folder :=
  inj_countable'
    (λ f, (id f, name f, color f, parentId f, order f))
    (λ t, match t with (i, n, c, p, o) => mkFolder i n c p o end)
    (λ f, match f with mkFolder _ _ _ _ _ => eq_refl end).

Definition print_doc {A} `{Countable A} (x : A) : string :=
  bits_of_pos (encode x).
Definition parse_doc {A} `{Countable A} (s : string) : option A :=
  decode (pos_of_bits s).

Definition memoryHost : Host := {|
  storage_read := λ d k, match d !! k with
                         | Some v => inl v
                         | None => inr "not found"
                         end;
  storage_write := λ d k v, inl (<[k := v]> d);
  JSON_parse_folders := parse_doc;
  JSON_parse_sessionFolders := parse_doc;
  JSON_parse_ids := parse_doc;
  JSON_stringify_folders := print_doc;
  JSON_stringify_sessionFolders := print_doc;
  JSON_stringify_ids := print_doc
|}.

(** The sample store once its two documents have been written to the
    memory host. *)
Definition savedStore : State :=
  after_saveSessionFolders (host := memoryHost)
    (after_saveFolders (host := memoryHost) sampleStore).

(** A store that has an expansion document on the memory host. *)
Definition expandedStore : State :=
  mkState sampleFolders ∅ {[ "A" ]}
          {[ "expanded-folders.json" := print_doc ["A"] ]} [].

(** * Properties *)

(** ** The descendant enumeration *)

Section Descendants.
Implicit Types (fs : list Folder) (x d : string) (k n : nat).

Lemma elem_of_childrenOf fs x c :
  c ∈ childrenOf fs x ↔ c ∈ fs ∧ parentId c = Some x.
Proof. unfold childrenOf. rewrite list_elem_of_filter. tauto. Qed.

Lemma for_of_descendants k fs (children : list Folder) (acc : list string) :
  for_of children
    (λ child ids,
       match getDescendantFolderIds k fs (id child) with
       | Some sub => Some (ids ++ [id child] ++ sub)
       | None => None
       end) acc
  = (λ subs, acc ++ mjoin subs)
      <$> mapM (λ c, (id c ::.) <$> getDescendantFolderIds k fs (id c))
               children.
Proof.
  revert acc. induction children as [|c r IH]; intros acc; simpl.
  - by rewrite app_nil_r.
  - destruct (getDescendantFolderIds k fs (id c)) as [sub|]; simpl; [|done].
    rewrite IH.
    destruct (mapM _ r) as [subs|]; simpl; [|done].
    by rewrite <- !app_assoc.
Qed.

(** One level of the recursion, as a map over the children. *)
Lemma getDescendantFolderIds_S k fs x :
  getDescendantFolderIds (S k) fs x
  = mjoin <$> mapM (λ c, (id c ::.) <$> getDescendantFolderIds k fs (id c))
                    (childrenOf fs x).
Proof. simpl. by rewrite for_of_descendants. Qed.

Lemma getDescendantFolderIds_forest n fs x :
  getDescendantFolderIds n fs x = flat_map preorder <$> childForest n fs x.
Proof.
  revert x. induction n as [|k IH]; intros x; [done|].
  rewrite getDescendantFolderIds_S.
  change (childForest (S k) fs x)
    with (mapM (λ c, Node (id c) <$> childForest k fs (id c))
               (childrenOf fs x)).
  induction (childrenOf fs x) as [|c r IHr]; [done|].
  cbn. rewrite IH.
  destruct (childForest k fs (id c)) as [ts|]; cbn; [|done].
  change (mapM ?f r) with (mapM f r) in IHr.
  destruct (mapM (λ c0, (id c0 ::.) <$> getDescendantFolderIds k fs (id c0)) r)
    as [subs|] eqn:E1;
    destruct (mapM (λ c0, Node (id c0) <$> childForest k fs (id c0)) r)
    as [ts'|] eqn:E2; cbn in *; try done.
  injection IHr as Heq. do 3 f_equal. exact Heq.
Qed.

(** More fuel does not change an answer. *)
Lemma getDescendantFolderIds_fuel_S k fs x ds :
  getDescendantFolderIds k fs x = Some ds →
  getDescendantFolderIds (S k) fs x = Some ds.
Proof.
  revert x ds. induction k as [|k IH]; intros x ds; [done|].
  rewrite (getDescendantFolderIds_S (S k)), getDescendantFolderIds_S.
  destruct (mapM _ (childrenOf fs x)) as [subs|] eqn:E; [|done].
  intros [= <-]. apply mapM_Some in E.
  erewrite (proj2 (mapM_Some _ _ subs)); [done|].
  eapply Forall2_impl; [exact E|]. intros c y Hy. cbv beta in *.
  destruct (getDescendantFolderIds k fs (id c)) as [sub|] eqn:Ec; [|done].
  by rewrite (IH _ _ Ec).
Qed.

Lemma getDescendantFolderIds_fuel_le k k' fs x ds :
  (k ≤ k')%nat →
  getDescendantFolderIds k fs x = Some ds →
  getDescendantFolderIds k' fs x = Some ds.
Proof.
  induction 1 as [|k' _ IH]; [done|].
  intros. by apply getDescendantFolderIds_fuel_S, IH.
Qed.

(** Two runs that both return agree. *)
Lemma getDescendantFolderIds_det k k' fs x ds ds' :
  getDescendantFolderIds k fs x = Some ds →
  getDescendantFolderIds k' fs x = Some ds' →
  ds = ds'.
Proof.
  intros H1 H2.
  apply (getDescendantFolderIds_fuel_le k (k `max` k')) in H1; [|lia].
  apply (getDescendantFolderIds_fuel_le k' (k `max` k')) in H2; [|lia].
  congruence.
Qed.

Lemma descendant_inv_r fs d x :
  descendant fs d x →
  is_child fs d x ∨ ∃ c, descendant fs d c ∧ is_child fs c x.
Proof.
  unfold descendant. revert x. apply tc_ind_r; [by left|].
  intros y z Hdy Hyz _. right. eauto.
Qed.

(** The enumeration holds exactly the ids that reach [x] through parents. *)
Lemma elem_of_getDescendantFolderIds k fs x ds d :
  getDescendantFolderIds k fs x = Some ds →
  d ∈ ds ↔ descendant fs d x.
Proof.
  revert x ds d. induction k as [|k IH]; intros x ds d; [done|].
  rewrite getDescendantFolderIds_S.
  destruct (mapM _ (childrenOf fs x)) as [subs|] eqn:E; [|done].
  intros [= <-]. apply mapM_Some in E.
  rewrite list_elem_of_join. split.
  - intros (y & Hd & Hy).
    destruct (proj1 (list_elem_of_lookup _ _) Hy) as [i Hi].
    destruct (Forall2_lookup_r _ _ _ _ _ E Hi) as (c & Hc & Hf).
    apply list_elem_of_lookup_2, elem_of_childrenOf in Hc as [Hc Hp].
    destruct (getDescendantFolderIds k fs (id c)) as [sub|] eqn:Ec; [|done].
    injection Hf as <-. apply elem_of_cons in Hd as [->|Hd].
    + apply tc_once. by exists c.
    + eapply tc_r; [by apply (IH _ _ _ Ec)|]. by exists c.
  - intros Hdesc.
    assert (∃ c, c ∈ childrenOf fs x
                 ∧ (d = id c ∨ descendant fs d (id c))) as (c & Hc & Hd).
    { destruct (descendant_inv_r _ _ _ Hdesc)
        as [(f & ? & <- & ?)|(c & ? & f & ? & <- & ?)];
        exists f; rewrite elem_of_childrenOf; eauto. }
    destruct (proj1 (list_elem_of_lookup _ _) Hc) as [i Hi].
    destruct (Forall2_lookup_l _ _ _ _ _ E Hi) as (y & Hy & Hf).
    exists y. split; [|by eapply list_elem_of_lookup_2].
    destruct (getDescendantFolderIds k fs (id c)) as [sub|] eqn:Ec; [|done].
    injection Hf as <-. apply elem_of_cons.
    destruct Hd as [->|Hd]; [by left|right]. by apply (IH _ _ _ Ec).
Qed.

(** A subtree of bounded height is enumerated within that much fuel. *)
Lemma bounded_height_returns fs n x :
  bounded_height fs n x → is_Some (getDescendantFolderIds n fs x).
Proof.
  induction 1 as [n x _ IH].
  rewrite getDescendantFolderIds_S.
  apply fmap_is_Some, mapM_is_Some, Forall_forall.
  intros c [Hc Hp]%elem_of_childrenOf. cbn.
  apply fmap_is_Some. by apply IH.
Qed.

Lemma returns_bounded_height k fs x ds :
  getDescendantFolderIds k fs x = Some ds → bounded_height fs k x.
Proof.
  revert x ds. induction k as [|k IH]; intros x ds; [done|].
  rewrite getDescendantFolderIds_S.
  destruct (mapM _ (childrenOf fs x)) as [subs|] eqn:E; [|done].
  intros _. apply mapM_Some in E. constructor. intros c Hc Hp.
  assert (c ∈ childrenOf fs x) as Hin by by apply elem_of_childrenOf.
  apply list_elem_of_lookup in Hin as [j Hj].
  destruct (Forall2_lookup_l _ _ _ _ _ E Hj) as (y & _ & Hy).
  destruct (getDescendantFolderIds k fs (id c)) as [sub|] eqn:Ec; [|done].
  by eapply IH.
Qed.

Lemma acyclic_bounded_below fs n (l : list Folder) x :
  acyclic fs →
  (∀ f, f ∈ fs → descendant fs (id f) x → f ∈ l) →
  (length l ≤ n)%nat →
  bounded_height fs (S n) x.
Proof.
  intros Hac. revert l x. induction n as [|n IH]; intros l x Hl Hlen;
    constructor; intros c Hc Hp.
  - assert (c ∈ l) as Hin by (apply Hl; [done|]; apply tc_once; by exists c).
    destruct l; [by apply elem_of_nil in Hin | simpl in Hlen; lia].
  - assert (c ∈ l) as Hin by (apply Hl; [done|]; apply tc_once; by exists c).
    apply (IH (filter (λ f, id f ≠ id c) l)).
    + intros f Hf Hd. apply list_elem_of_filter. split.
      * intros Heq. apply (Hac (id c)). by rewrite <- Heq at 1.
      * apply Hl; [done|]. eapply tc_r; [exact Hd|]. by exists c.
    + pose proof (length_filter_lt (λ f, id f ≠ id c) l c Hin) as Hlt.
      lapply Hlt; [lia|]. intros Hne. by apply Hne.
Qed.

(** In an acyclic forest no subtree is higher than the folder list is
    long. *)
Lemma acyclic_bounded_height fs x :
  acyclic fs → bounded_height fs (S (length fs)) x.
Proof. intros Hac. by apply (acyclic_bounded_below fs _ fs). Qed.

End Descendants.

(** ** The monad and the persistence adapter *)

Section Store.
Context `{host : Host}.
Implicit Types (st : State) (fs : list Folder).

Lemma set_folders_same st : set_folders (folders st) st = st.
Proof. by destruct st. Qed.

Lemma saveFolders_eq st : saveFolders st = Returned tt (after_saveFolders st).
Proof.
  unfold saveFolders, after_saveFolders, try_catch, bind, get_state, write,
    modify.
  by destruct (storage_write _ _ _).
Qed.

Lemma saveSessionFolders_eq st :
  saveSessionFolders st = Returned tt (after_saveSessionFolders st).
Proof.
  unfold saveSessionFolders, after_saveSessionFolders, try_catch, bind,
    get_state, write, modify.
  by destruct (storage_write _ _ _).
Qed.

Lemma after_saveFolders_model st : same_model st (after_saveFolders st).
Proof. unfold after_saveFolders. by destruct (storage_write _ _ _). Qed.

Lemma after_saveSessionFolders_model st :
  same_model st (after_saveSessionFolders st).
Proof. unfold after_saveSessionFolders. by destruct (storage_write _ _ _). Qed.

Lemma published_model st : same_model st (published st).
Proof.
  unfold published. destruct (after_saveFolders_model st) as (?&?&?).
  by repeat split.
Qed.

Lemma folders_published st : folders (published st) = folders st.
Proof. apply published_model. Qed.

Lemma sessionFolders_published st :
  sessionFolders (published st) = sessionFolders st.
Proof. apply published_model. Qed.

Lemma expandedFolders_published st :
  expandedFolders (published st) = expandedFolders st.
Proof. apply published_model. Qed.

Lemma when_present_assign {A} (g : A → Folder → Folder) (o : option A) i st :
  when_present o (λ v, assign i (g v)) st
  = Returned tt (set_folders (alter (opt_apply g o) i (folders st)) st).
Proof.
  destruct o as [v|]; [done|]. unfold when_present, ret. cbn.
  by rewrite list_alter_id, set_folders_same.
Qed.

End Store.

(** ** Loading *)

Section Loading.
Context `{host : Host}.
Implicit Types (st : State).

Lemma loadFolders_eq st :
  loadFolders st
  = Returned tt
      (set_folders
         (match storage_read (disk st) "folders.json" with
          | inl content => default [] (JSON_parse_folders content)
          | inr _ => []
          end) st).
Proof.
  unfold loadFolders, try_catch, bind, read, parse, modify.
  destruct (storage_read _ _) as [content|e]; [|done].
  by destruct (JSON_parse_folders content).
Qed.

Lemma loadSessionFolders_eq st :
  loadSessionFolders st
  = Returned tt
      (set_sessionFolders
         (match storage_read (disk st) "session-folders.json" with
          | inl content => default ∅ (JSON_parse_sessionFolders content)
          | inr _ => ∅
          end) st).
Proof.
  unfold loadSessionFolders, try_catch, bind, read, parse, modify.
  destruct (storage_read _ _) as [content|e]; [|done].
  by destruct (JSON_parse_sessionFolders content).
Qed.

Lemma loadExpandedFolders_returns st :
  ∃ st', loadExpandedFolders st = Returned tt st'
         ∧ folders st' = folders st
         ∧ sessionFolders st' = sessionFolders st.
Proof.
  unfold loadExpandedFolders, try_catch, bind, read, parse, modify, ret.
  destruct (storage_read _ _) as [content|e]; [|by eexists].
  destruct (JSON_parse_ids content); by eexists.
Qed.

(** C6: a load never throws; when reading or parsing the folder document
    fails the folder list starts empty, and when reading or parsing the
    assignment document fails the assignment map starts empty. *)
Theorem load_failure_starts_fresh st :
  ∃ st', load st = Returned tt st'
    ∧ (load_fails "folders.json" JSON_parse_folders st → folders st' = [])
    ∧ (load_fails "session-folders.json" JSON_parse_sessionFolders st →
       sessionFolders st' = ∅).
Proof.
  unfold load, bind at 1. rewrite loadFolders_eq.
  unfold bind at 1. rewrite loadSessionFolders_eq.
  set (st2 := set_sessionFolders _ _).
  destruct (loadExpandedFolders_returns st2) as (st3 & E3 & Hf & Hs).
  unfold bind at 1. rewrite E3. unfold bind, get_state, modify, ret.
  assert (∃ st', (if bool_decide (size (expandedFolders st3) = 0%nat)
                  then λ st0, Returned tt
                         (set_expandedFolders
                            (list_to_set (id <$> folders st0)
                             ∪ expandedFolders st0) st0)
                  else λ st0, Returned tt st0) st3 = Returned tt st'
                 ∧ folders st' = folders st3
                 ∧ sessionFolders st' = sessionFolders st3)
    as (st' & E & Hf' & Hs').
  { case_bool_decide; by eexists. }
  exists st'. split; [exact E|]. rewrite Hf', Hs', Hf, Hs. subst st2. cbn.
  unfold load_fails. split.
  - destruct (storage_read (disk st) "folders.json"); [|done].
    by intros ->.
  - destruct (storage_read (disk st) "session-folders.json"); [|done].
    by intros ->.
Qed.

End Loading.

(** Two instances on a host whose storage is out of reach. *)
Lemma load_failure_starts_fresh_witness :
  ∃ st', load (host := offlineHost) sampleStore = Returned tt st'
         ∧ folders st' = [] ∧ sessionFolders st' = ∅.
Proof.
  destruct (load_failure_starts_fresh (host := offlineHost) sampleStore)
    as (st' & E & Hf & Hs).
  exists st'. split; [exact E|]. split; [apply Hf | apply Hs]; exact I.
Defined.

(** ** Creating folders and assigning sessions *)

Section CreateAndMove.
Context `{host : Host}.
Implicit Types (st : State).

Lemma createFolder_eq now rnd nm col pid st :
  let folder :=
    mkFolder (fresh_folder_id now rnd) nm
      (match col with
       | Some c => if truthy c then c else default_color
       | None => default_color
       end)
      pid
      (Z.of_nat (length (filter (λ f, parentId f = pid) (folders st)))) in
  createFolder now rnd nm col pid st
  = Returned folder
      (published
         (set_expandedFolders ({[id folder]} ∪ expandedFolders st)
            (set_folders (folders st ++ [folder]) st))).
Proof.
  unfold createFolder, bind, get_state, modify, ret. cbn.
  by rewrite saveFolders_eq.
Qed.

(** C8: the new folder's [order] is the number of folders that already have
    the same [parentId], and the folder list grows by exactly that record at
    its end, the existing ones staying as they were. *)
Theorem createFolder_order_is_sibling_count now rnd nm col pid st :
  ∃ folder st',
    createFolder now rnd nm col pid st = Returned folder st'
    ∧ order folder
      = Z.of_nat (length (filter (λ f, parentId f = pid) (folders st)))
    ∧ id folder = fresh_folder_id now rnd
    ∧ name folder = nm
    ∧ parentId folder = pid
    ∧ folders st' = folders st ++ [folder]
    ∧ sessionFolders st' = sessionFolders st.
Proof.
  eexists _, _. split; [apply createFolder_eq|].
  rewrite folders_published, sessionFolders_published. by repeat split.
Qed.

Lemma moveSessionToFolder_eq sessionId folderId st :
  moveSessionToFolder sessionId folderId st
  = Returned tt
      (emit FoldersChanged
         (emit RenderList
            (after_saveSessionFolders
               (set_sessionFolders
                  (match folderId with
                   | Some f =>
                       if truthy f
                       then js_set (sessionFolders st) sessionId f
                       else js_delete (sessionFolders st) sessionId
                   | None => js_delete (sessionFolders st) sessionId
                   end) st)))).
Proof.
  unfold moveSessionToFolder, bind, modify.
  destruct folderId as [f|]; [destruct (truthy f)|];
    by rewrite saveSessionFolders_eq.
Qed.

Lemma moveSessionToFolder_model sessionId folderId st :
  ∃ st', moveSessionToFolder sessionId folderId st = Returned tt st'
    ∧ folders st' = folders st
    ∧ expandedFolders st' = expandedFolders st
    ∧ sessionFolders st'
      = match folderId with
        | Some f =>
            if truthy f
            then js_set (sessionFolders st) sessionId f
            else js_delete (sessionFolders st) sessionId
        | None => js_delete (sessionFolders st) sessionId
        end.
Proof.
  eexists. split; [apply moveSessionToFolder_eq|]. cbn.
  destruct (after_saveSessionFolders_model
              (set_sessionFolders
                 (match folderId with
                  | Some f =>
                      if truthy f
                      then js_set (sessionFolders st) sessionId f
                      else js_delete (sessionFolders st) sessionId
                  | None => js_delete (sessionFolders st) sessionId
                  end) st)) as (Hf & Hs & He).
  by rewrite Hf, Hs, He.
Qed.

Lemma truthy_true s : truthy s = true ↔ s ≠ "".
Proof. unfold truthy. rewrite negb_true_iff, bool_decide_eq_false. tauto. Qed.

(** *** Reads and writes of a plain object *)

Lemma js_get_string o k v : js_get o k = Some (VString v) ↔ o !! k = Some v.
Proof.
  unfold js_get. destruct (o !! k) as [w|]; [split; congruence|].
  by case_bool_decide.
Qed.

Lemma js_get_plain o k :
  k ∉ object_prototype_names → js_get o k = VString <$> o !! k.
Proof.
  intros Hk. unfold js_get. destruct (o !! k); [done|].
  by rewrite bool_decide_eq_false_2.
Qed.

Lemma js_get_inherited o k :
  k ∈ object_prototype_names → o !! k = None →
  js_get o k = Some (VInherited k).
Proof. intros Hk Ho. unfold js_get. by rewrite Ho, bool_decide_eq_true_2. Qed.

Lemma js_set_stored o k v :
  k ≠ "__proto__" ∨ is_Some (o !! k) → js_set o k v = <[k := v]> o.
Proof.
  intros Hk. unfold js_set. rewrite bool_decide_eq_false_2; [done|].
  intros [-> Hnone]. destruct Hk as [?|[w Hw]]; congruence.
Qed.

Lemma js_set_dropped o v :
  o !! "__proto__" = None → js_set o "__proto__" v = o.
Proof. intros Ho. unfold js_set. by rewrite bool_decide_eq_true_2. Qed.

Lemma js_set_other o k v k' : k' ≠ k → js_set o k v !! k' = o !! k'.
Proof.
  intros Hne. unfold js_set. case_bool_decide; [done|].
  by rewrite lookup_insert_ne.
Qed.

Lemma js_delete_other o k k' : k' ≠ k → js_delete o k !! k' = o !! k'.
Proof. intros Hne. unfold js_delete. by rewrite lookup_delete_ne. Qed.

Lemma getSessionFolder_string st s v :
  getSessionFolder st s = Some (VString v)
  ↔ sessionFolders st !! s = Some v ∧ v ≠ "".
Proof.
  unfold getSessionFolder. cbv zeta. rewrite <- js_get_string, <- truthy_true.
  destruct (js_get (sessionFolders st) s) as [[w|k]|]; cbn.
  - destruct (truthy w) eqn:Hw.
    + split; [by intros [= <-]|]. by intros [? _].
    + split; [done|]. intros [[= <-] ?]. congruence.
  - split; [done|]. by intros [? _].
  - split; [done|]. by intros [? _].
Qed.

(** C9, as the code has it.  Assigning a session to a folder id that is not
    the empty string makes [getSessionFolder] return that id, for every
    session id but [__proto__], where the assignment is dropped unless the
    object owns such a property.  Assigning [null] -- or the empty string,
    which the code takes for "no folder" -- makes it return [null], for
    every session id that names no member of [Object.prototype].  In every
    case every other session keeps its entry, and the folder list is not
    touched. *)
Theorem moveSessionToFolder_then_getSessionFolder s (f : string) st :
  (f ≠ "" → s ≠ "__proto__" ∨ is_Some (sessionFolders st !! s) →
   ∃ st', moveSessionToFolder s (Some f) st = Returned tt st'
     ∧ getSessionFolder st' s = Some (VString f)
     ∧ (∀ s', s' ≠ s → sessionFolders st' !! s' = sessionFolders st !! s')
     ∧ folders st' = folders st)
  ∧ (s ∉ object_prototype_names →
     ∃ st', moveSessionToFolder s None st = Returned tt st'
       ∧ getSessionFolder st' s = None
       ∧ (∀ s', s' ≠ s → sessionFolders st' !! s' = sessionFolders st !! s')
       ∧ folders st' = folders st)
  ∧ (s ∉ object_prototype_names →
     ∃ st', moveSessionToFolder s (Some "") st = Returned tt st'
       ∧ getSessionFolder st' s = None
       ∧ (∀ s', s' ≠ s → sessionFolders st' !! s' = sessionFolders st !! s')
       ∧ folders st' = folders st)
  ∧ (∀ fo, ∃ st', moveSessionToFolder s fo st = Returned tt st'
       ∧ (∀ s', s' ≠ s → getSessionFolder st' s' = getSessionFolder st s')
       ∧ folders st' = folders st).
Proof.
  split; [|split; [|split]].
  - intros Hf%truthy_true Hs.
    destruct (moveSessionToFolder_model s (Some f) st) as (st' & E & ? & ? & Hsf).
    rewrite Hf, (js_set_stored _ _ _ Hs) in Hsf.
    exists st'. split; [done|]. split; [|split; [|done]].
    + apply getSessionFolder_string. rewrite Hsf, lookup_insert_eq.
      by split; [|apply truthy_true].
    + intros s' ?. by rewrite Hsf, lookup_insert_ne.
  - intros Hs.
    destruct (moveSessionToFolder_model s None st) as (st' & E & ? & ? & Hsf).
    exists st'. split; [done|]. unfold getSessionFolder.
    rewrite Hsf, (js_get_plain _ _ Hs). unfold js_delete.
    rewrite lookup_delete_eq. repeat split; [|done].
    intros s' ?. by rewrite lookup_delete_ne.
  - intros Hs.
    destruct (moveSessionToFolder_model s (Some "") st) as (st' & E & ? & ? & Hsf).
    exists st'. split; [done|]. unfold getSessionFolder.
    change (truthy "") with false in Hsf.
    rewrite Hsf, (js_get_plain _ _ Hs). unfold js_delete.
    rewrite lookup_delete_eq. repeat split; [|done].
    intros s' ?. by rewrite lookup_delete_ne.
  - intros fo.
    destruct (moveSessionToFolder_model s fo st) as (st' & E & ? & ? & Hsf).
    exists st'. split; [done|]. split; [|done]. intros s' Hne.
    unfold getSessionFolder, js_get. rewrite Hsf.
    destruct fo as [g|]; [destruct (truthy g)|];
      by rewrite ?js_set_other, ?js_delete_other.
Qed.

End CreateAndMove.

Lemma moveSessionToFolder_then_getSessionFolder_witness :
  ∃ st', moveSessionToFolder (host := offlineHost) "s1" (Some "C") sampleStore
         = Returned tt st'
         ∧ getSessionFolder st' "s1" = Some (VString "C").
Proof.
  destruct (moveSessionToFolder_then_getSessionFolder
              (host := offlineHost) "s1" "C" sampleStore) as [Hset _].
  destruct Hset as (st' & E & Hg & _); [done|by left|].
  by exists st'.
Defined.

(** C9 as stated fails in three places.  At the folder id [""]: it is not
    [null], yet after the move the session has no folder.  At the session
    id [__proto__]: the assignment is dropped, and the read gives the
    prototype object.  At the session id [constructor]: after the
    assignment is cleared the read gives the inherited function, not
    [null]. *)
Lemma moveSessionToFolder_roundtrip_counterexample :
  (∃ st', moveSessionToFolder (host := offlineHost) "s1" (Some "") sampleStore
          = Returned tt st'
          ∧ getSessionFolder st' "s1" = None)
  ∧ (∃ st', moveSessionToFolder (host := offlineHost)
              "__proto__" (Some "A") sampleStore
            = Returned tt st'
            ∧ sessionFolders st' = sessionFolders sampleStore
            ∧ getSessionFolder st' "__proto__"
              = Some (VInherited "__proto__"))
  ∧ (∃ st', moveSessionToFolder (host := offlineHost)
              "constructor" None sampleStore
            = Returned tt st'
            ∧ getSessionFolder st' "constructor"
              = Some (VInherited "constructor")).
Proof.
  split; [|split].
  - destruct (moveSessionToFolder_model (host := offlineHost)
                "s1" (Some "") sampleStore) as (st' & E & _ & _ & Hs).
    exists st'. split; [exact E|]. unfold getSessionFolder.
    change (truthy "") with false in Hs. by rewrite Hs.
  - destruct (moveSessionToFolder_model (host := offlineHost)
                "__proto__" (Some "A") sampleStore) as (st' & E & _ & _ & Hs).
    exists st'. split; [exact E|]. unfold getSessionFolder.
    change (truthy "A") with true in Hs. by rewrite Hs.
  - destruct (moveSessionToFolder_model (host := offlineHost)
                "constructor" None sampleStore) as (st' & E & _ & _ & Hs).
    exists st'. split; [exact E|]. unfold getSessionFolder. by rewrite Hs.
Qed.

(** ** Updating a folder *)

Section Edges.
Implicit Types (fs : list Folder) (x : string).

Lemma ids_childrenOf fs x :
  id <$> childrenOf fs x
  = fst <$> filter (λ e, e.2 = Some x) (edges fs).
Proof.
  unfold childrenOf, edges. induction fs as [|f fs IH]; [done|].
  rewrite fmap_cons, !filter_cons. cbn.
  destruct (decide (parentId f = Some x)); cbn; by rewrite IH.
Qed.

Lemma mapM_on_ids {B} (F : string → option B) (l : list Folder) :
  mapM (λ c, F (id c)) l = mapM F (id <$> l).
Proof. induction l as [|c l IH]; [done|]. cbn. by rewrite IH. Qed.

(** The enumeration looks at ids and parent ids only. *)
Lemma getDescendantFolderIds_edges k fs fs' x :
  edges fs = edges fs' →
  getDescendantFolderIds k fs x = getDescendantFolderIds k fs' x.
Proof.
  intros He. revert x. induction k as [|k IH]; intros x; [done|].
  rewrite !getDescendantFolderIds_S.
  rewrite (mapM_on_ids (λ i, (i ::.) <$> getDescendantFolderIds k fs i)).
  rewrite (mapM_on_ids (λ i, (i ::.) <$> getDescendantFolderIds k fs' i)).
  rewrite !ids_childrenOf, He. f_equal.
  apply mapM_ext. intros i. by rewrite IH.
Qed.

Lemma edges_alter (g : Folder → Folder) i fs :
  (∀ f, id (g f) = id f ∧ parentId (g f) = parentId f) →
  edges (alter g i fs) = edges fs.
Proof.
  intros Hg. unfold edges.
  rewrite (list_fmap_alter _ g (λ e, e)).
  - by apply list_alter_id.
  - apply Forall_forall. intros f _. by destruct (Hg f) as [-> ->].
Qed.

Lemma alter_as_insert {A} (g : A → A) i (l : list A) a :
  l !! i = Some a → alter g i l = <[i := g a]> l.
Proof.
  intros Hi. rewrite list_insert_alter. apply list_alter_ext; [|done].
  intros b Hb. congruence.
Qed.

Lemma apply_name_color_edges u f :
  id (apply_name_color u f) = id f
  ∧ parentId (apply_name_color u f) = parentId f.
Proof. unfold apply_name_color. by destruct (upd_color u), (upd_name u). Qed.

End Edges.

Section Update.
Context `{host : Host}.
Implicit Types (st : State) (fs : list Folder) (u : Updates).

Lemma set_folders_set_folders fs fs' st :
  set_folders fs (set_folders fs' st) = set_folders fs st.
Proof. done. Qed.

Lemma updateFolder_unknown fuel fid u st :
  list_find (λ f, id f = fid) (folders st) = None →
  updateFolder fuel fid u st = Returned None st.
Proof. intros E. unfold updateFolder, bind, get_state. by rewrite E. Qed.

(** The tail of an accepted update: order, save, re-render, notify, hand
    the folder back. *)
Lemma updateFolder_tail (o : option Z) i st f :
  folders st !! i = Some f →
  (when_present o (λ v, assign i (with_order v));;;
   saveFolders;;;
   modify (emit RenderList);;;
   modify (emit FoldersChanged);;;
   st' <- get_state;;
   ret (folders st' !! i)) st
  = Returned (Some (opt_apply with_order o f))
      (published
         (set_folders (<[i := opt_apply with_order o f]> (folders st)) st)).
Proof.
  intros Hi.
  unfold bind at 1. rewrite when_present_assign.
  unfold bind at 1. rewrite saveFolders_eq.
  unfold bind, modify, get_state, ret.
  rewrite (alter_as_insert _ _ _ _ Hi).
  fold (published
          (set_folders (<[i := opt_apply with_order o f]> (folders st)) st)).
  rewrite folders_published. cbn [folders set_folders].
  rewrite list_lookup_insert_eq; [done|]. by eapply lookup_lt_Some.
Qed.

(** [updateFolder] on a known id, in closed form. *)
Lemma updateFolder_found fuel fid u st i f :
  list_find (λ f, id f = fid) (folders st) = Some (i, f) →
  updateFolder fuel fid u st
  = match guard_refuses fuel (folders st) fid u with
    | None => Diverged
    | Some true =>
        Returned None
          (emit (ConsoleWarn circular_warning)
             (set_folders (<[i := apply_name_color u f]> (folders st)) st))
    | Some false =>
        Returned (Some (apply_updates u f))
          (published (set_folders (<[i := apply_updates u f]> (folders st)) st))
    end.
Proof.
  intros E. pose proof E as (Hi & _ & _)%list_find_Some.
  assert (i < length (folders st))%nat as Hlt by by eapply lookup_lt_Some.
  unfold updateFolder. unfold bind at 1, get_state at 1. rewrite E.
  unfold bind at 1. rewrite when_present_assign.
  unfold bind at 1. rewrite when_present_assign. cbn [folders set_folders].
  rewrite list_alter_alter_eq, set_folders_set_folders.
  rewrite (alter_as_insert _ _ _ _ Hi).
  change ((opt_apply with_color (upd_color u)
           ∘ opt_apply with_name (upd_name u)) f)
    with (apply_name_color u f).
  set (fs1 := <[i := apply_name_color u f]> (folders st)).
  assert (fs1 !! i = Some (apply_name_color u f)) as Hi1
    by by apply list_lookup_insert_eq.
  assert (edges fs1 = edges (folders st)) as He.
  { subst fs1. rewrite <- (alter_as_insert (apply_name_color u) _ _ _ Hi).
    apply edges_alter, apply_name_color_edges. }
  assert (∀ p, (assign i (with_parentId p);;; ret false) (set_folders fs1 st)
             = Returned false
                 (set_folders
                    (<[i := with_parentId p (apply_name_color u f)]>
                       (folders st)) st)) as Hassign.
  { intros p. unfold bind, assign, modify, ret. cbn [folders set_folders].
    rewrite (alter_as_insert _ _ _ _ Hi1), set_folders_set_folders.
    subst fs1. by rewrite list_insert_insert_eq. }
  unfold guard_refuses, apply_updates.
  fold (apply_name_color u f).
  destruct (upd_parentId u) as [p|]; cbn [opt_apply].
  - unfold bind at 1. unfold bind at 1.
    assert (wouldBeCircular fuel fid p (set_folders fs1 st)
            = match guard_refuses fuel (folders st) fid
                      (mkUpdates None None (Some p) None) with
              | Some b => Returned b (set_folders fs1 st)
              | None => Diverged
              end) as ->.
    { unfold wouldBeCircular, guard_refuses. cbn [upd_parentId].
      destruct p as [x|]; [|done]. destruct (truthy x); [|done].
      case_bool_decide; [done|].
      unfold bind, get_state, lift_fuel, ret. cbn [folders set_folders].
      rewrite (getDescendantFolderIds_edges _ _ _ _ He).
      by destruct (getDescendantFolderIds fuel (folders st) fid). }
    assert (match
              (assign i (with_parentId p);;; ret false) (set_folders fs1 st)
            with
            | Returned a st' =>
                (if (a : bool)
                 then ret None
                 else
                   when_present (upd_order u) (λ v, assign i (with_order v));;;
                   saveFolders;;;
                   modify (emit RenderList);;;
                   modify (emit FoldersChanged);;;
                   st'0 <- get_state;; ret (folders st'0 !! i)) st'
            | Thrown e st' => Thrown e st'
            | Diverged => Diverged
            end
            = Returned
                (Some (opt_apply with_order (upd_order u)
                         (with_parentId p (apply_name_color u f))))
                (published
                   (set_folders
                      (<[i := opt_apply with_order (upd_order u)
                                (with_parentId p (apply_name_color u f))]>
                         (folders st)) st))) as Haccept.
    { rewrite Hassign.
      rewrite (updateFolder_tail _ _ _
                 (with_parentId p (apply_name_color u f)));
        [|by apply list_lookup_insert_eq].
      cbn [folders set_folders].
      by rewrite list_insert_insert_eq, set_folders_set_folders. }
    unfold guard_refuses. cbn [upd_parentId].
    destruct p as [x|]; [|exact Haccept].
    destruct (truthy x); [|exact Haccept].
    case_bool_decide; [done|].
    destruct (getDescendantFolderIds fuel (folders st) fid) as [ds|];
      [|done]. cbn [fmap option_fmap option_map].
    case_bool_decide; [done|exact Haccept].
  - unfold bind at 1, ret at 1.
    rewrite (updateFolder_tail _ _ _ (apply_name_color u f)); [|done].
    cbn [folders set_folders]. subst fs1.
    by rewrite list_insert_insert_eq, set_folders_set_folders.
Qed.

Lemma apply_updates_fields u f :
  id (apply_updates u f) = id f
  ∧ name (apply_updates u f) = default (name f) (upd_name u)
  ∧ color (apply_updates u f) = default (color f) (upd_color u)
  ∧ parentId (apply_updates u f) = default (parentId f) (upd_parentId u)
  ∧ order (apply_updates u f) = default (order f) (upd_order u).
Proof.
  unfold apply_updates.
  by destruct (upd_name u), (upd_color u), (upd_parentId u), (upd_order u).
Qed.

Lemma no_cyclic_reparent_guard fuel fs fid u :
  no_cyclic_reparent fuel fs fid u → guard_refuses fuel fs fid u = Some false.
Proof.
  unfold no_cyclic_reparent, guard_refuses.
  destruct (upd_parentId u) as [[x|]|]; try done.
  destruct (truthy x); [|done].
  intros Hx. destruct Hx as (Hne & ds & -> & Hnin); [done|].
  rewrite bool_decide_eq_false_2 by done. cbn.
  by rewrite bool_decide_eq_false_2.
Qed.


(** C1, as the code has it.  For a known id and the update
    [{parentId: X}]: when [X] is a non-empty string that equals the id or
    occurs in its descendant enumeration, the call returns [null] and
    leaves folders, assignments, expansion set and storage as they were (a
    warning is logged); when [X] is [null], the empty string, or a string
    that is neither the id nor in the enumeration, the folder's parent
    becomes [X] and the folder is handed back. *)
Theorem updateFolder_cycle_guard fuel fid X st i f :
  list_find (λ f, id f = fid) (folders st) = Some (i, f) →
  (∀ x, X = Some x → x ≠ "" →
     (x = fid
      ∨ ∃ ds, getDescendantFolderIds fuel (folders st) fid = Some ds ∧ x ∈ ds) →
     ∃ st', updateFolder fuel fid (reparent X) st = Returned None st'
       ∧ st' = emit (ConsoleWarn circular_warning) st
       ∧ folders st' = folders st
       ∧ sessionFolders st' = sessionFolders st
       ∧ expandedFolders st' = expandedFolders st
       ∧ disk st' = disk st)
  ∧ ((X = None ∨ X = Some ""
      ∨ ∃ x ds, X = Some x ∧ x ≠ fid
          ∧ getDescendantFolderIds fuel (folders st) fid = Some ds ∧ x ∉ ds) →
     ∃ st',
       updateFolder fuel fid (reparent X) st
       = Returned (Some (with_parentId X f)) st'
       ∧ folders st' = <[i := with_parentId X f]> (folders st)
       ∧ sessionFolders st' = sessionFolders st
       ∧ expandedFolders st' = expandedFolders st).
Proof.
  intros E. pose proof E as (Hi & _ & _)%list_find_Some.
  rewrite (updateFolder_found _ _ _ _ _ _ E). split.
  - intros x -> Hx%truthy_true Hcyc. eexists.
    unfold guard_refuses. cbn [reparent upd_parentId]. rewrite Hx.
    assert ((if bool_decide (x = fid) then Some true
             else (λ ds, bool_decide (x ∈ ds))
                    <$> getDescendantFolderIds fuel (folders st) fid)
            = Some true) as ->.
    { case_bool_decide; [done|].
      destruct Hcyc as [?|(ds & -> & Hin)]; [done|]. cbn.
      by rewrite bool_decide_eq_true_2. }
    unfold apply_name_color. cbn [reparent upd_name upd_color opt_apply].
    rewrite (list_insert_id _ _ _ Hi), set_folders_same. by repeat split.
  - intros Hok. eexists.
    rewrite (no_cyclic_reparent_guard fuel (folders st) fid (reparent X)).
    + unfold apply_updates. cbn [reparent upd_name upd_color upd_order
                                  upd_parentId opt_apply].
      split; [done|].
      by rewrite folders_published, sessionFolders_published,
        expandedFolders_published.
    + unfold no_cyclic_reparent. cbn [reparent upd_parentId].
      destruct Hok as [->| [->|(x & ds & -> & Hne & Hds & Hnin)]]; [done|..].
      * by intros [=].
      * intros _. split; [done|]. by exists ds.
Qed.

(** With the circular-reference check able to answer, [updateFolder]
    returns. *)
Lemma updateFolder_returns fuel fid u st :
  is_Some (getDescendantFolderIds fuel (folders st) fid) →
  ∃ r st', updateFolder fuel fid u st = Returned r st'.
Proof.
  intros [ds Hds].
  destruct (list_find (λ f, id f = fid) (folders st)) as [[i f]|] eqn:E.
  - rewrite (updateFolder_found _ _ _ _ _ _ E).
    assert (is_Some (guard_refuses fuel (folders st) fid u)) as [[] ->];
      [|by eexists _, _..].
    unfold guard_refuses. rewrite Hds.
    destruct (upd_parentId u) as [[x|]|]; try done.
    destruct (truthy x); [|done]. by case_bool_decide.
  - rewrite (updateFolder_unknown _ _ _ _ E). by eexists _, _.
Qed.

End Update.


Lemma updateFolder_cycle_guard_witness :
  (∃ st', updateFolder (host := offlineHost) 4 "A" (reparent (Some "B"))
            sampleStore = Returned None st'
          ∧ folders st' = sampleFolders)
  ∧ (∃ st', updateFolder (host := offlineHost) 4 "C" (reparent (Some "B"))
              sampleStore
            = Returned (Some (with_parentId (Some "B") folderC)) st'
            ∧ folders st'
              = [folderA; folderB; with_parentId (Some "B") folderC]).
Proof.
  split.
  - destruct (updateFolder_cycle_guard (host := offlineHost) 4 "A" (Some "B")
                sampleStore 0%nat folderA eq_refl) as [Hrej _].
    destruct (Hrej "B" eq_refl) as (st' & E & _ & Hfs & _).
    + done.
    + right. exists ["B"]. split; [reflexivity|]. apply list_elem_of_singleton.
      reflexivity.
    + by exists st'.
  - destruct (updateFolder_cycle_guard (host := offlineHost) 4 "C" (Some "B")
                sampleStore 2%nat folderC eq_refl) as [_ Hacc].
    destruct Hacc as (st' & E & Hfs & _).
    + right; right. exists "B", [].
      split; [reflexivity|]. split; [done|]. split; [reflexivity|].
      apply not_elem_of_nil.
    + by exists st'.
Defined.

(** A refused re-parenting that comes with a new name: the call returns
    [null], and the name has been written all the same (the name and color
    assignments precede the check). *)
Lemma updateFolder_refused_after_rename :
  ∃ st',
    updateFolder (host := offlineHost) 4 "A"
      (mkUpdates (Some "Renamed") None (Some (Some "B")) None) sampleStore
    = Returned None st'
    ∧ folders st' = [with_name "Renamed" folderA; folderB; folderC].
Proof.
  eexists.
  rewrite (updateFolder_found (host := offlineHost) 4 "A" _ sampleStore
             0%nat folderA eq_refl).
  change (guard_refuses 4 (folders sampleStore) "A"
            (mkUpdates (Some "Renamed") None (Some (Some "B")) None))
    with (Some true).
  by split.
Qed.

(** C1 as stated fails on a folder whose id is the empty string: the
    requested parent equals the id, and the call accepts it. *)
Lemma updateFolder_blank_id_counterexample :
  list_find (λ f, id f = "") (folders blankStore) = Some (0%nat, blankFolder)
  ∧ ∃ st',
      updateFolder (host := offlineHost) 1 "" (reparent (Some "")) blankStore
      = Returned (Some (with_parentId (Some "") blankFolder)) st'
      ∧ folders st' = [with_parentId (Some "") blankFolder]
      ∧ folders st' ≠ folders blankStore.
Proof.
  split; [reflexivity|]. eexists.
  rewrite (updateFolder_found (host := offlineHost) 1 "" _ blankStore
             0%nat blankFolder eq_refl).
  change (guard_refuses 1 (folders blankStore) "" (reparent (Some "")))
    with (Some false).
  split; [reflexivity|]. rewrite folders_published. by split.
Qed.

(** ** Acyclic forests *)

Section Acyclicity.
Implicit Types (fs : list Folder) (x d a : string).

Lemma descendant_subrel fs fs' d a :
  (∀ c p, is_child fs' c p → is_child fs c p) →
  descendant fs' d a → descendant fs d a.
Proof.
  intros Hsub. induction 1 as [c p Hcp|c p q Hcp _ IH].
  - apply tc_once. by apply Hsub.
  - eapply tc_l; [by apply Hsub|done].
Qed.

Lemma acyclic_subrel fs fs' :
  (∀ c p, is_child fs' c p → is_child fs c p) → acyclic fs → acyclic fs'.
Proof. intros Hsub Hac x Hx. apply (Hac x). by eapply descendant_subrel. Qed.

Lemma descendant_first fs d a : descendant fs d a → ∃ p, is_child fs d p.
Proof. destruct 1; eauto. Qed.

Lemma descendant_last fs d a : descendant fs d a → ∃ c, is_child fs c a.
Proof. intros [?|(c & _ & ?)]%descendant_inv_r; eauto. Qed.

(** Paths in a graph with one more edge [a -> b]. *)
Lemma descendant_add_edge fs fs' a b u v :
  (∀ c p, is_child fs' c p → is_child fs c p ∨ (c = a ∧ p = b)) →
  descendant fs' u v →
  descendant fs u v
  ∨ ((u = a ∨ descendant fs u a) ∧ (v = b ∨ descendant fs b v)).
Proof.
  intros Hsub. induction 1 as [c p Hcp|c p q Hcp _ IH].
  - destruct (Hsub _ _ Hcp) as [?|[-> ->]]; [left; by apply tc_once|].
    right. by split; left.
  - destruct (Hsub _ _ Hcp) as [Hold|[-> ->]].
    + destruct IH as [IH|[Hl Hr]]; [left; by eapply tc_l|].
      right. split; [|done]. right.
      destruct Hl as [->|Hl]; [by apply tc_once | by eapply tc_l].
    + right. split; [by left|].
      destruct IH as [IH|[_ Hr]]; [by right | done].
Qed.

(** An edge [a -> b] closes no cycle when [b] is not [a] and does not
    already reach [a]. *)
Lemma acyclic_add_edge fs fs' a b :
  acyclic fs →
  b ≠ a →
  ¬ descendant fs b a →
  (∀ c p, is_child fs' c p → is_child fs c p ∨ (c = a ∧ p = b)) →
  acyclic fs'.
Proof.
  intros Hac Hne Hnd Hsub x Hx.
  destruct (descendant_add_edge _ _ _ _ _ _ Hsub Hx) as [?|[Hl Hr]];
    [by eapply Hac|].
  destruct Hl as [Hl|Hl], Hr as [Hr|Hr].
  - apply Hne. congruence.
  - apply Hnd. by subst.
  - apply Hnd. by subst.
  - apply Hnd. by eapply tc_transitive.
Qed.

Lemma acyclic_returns fs x fuel :
  acyclic fs → (length fs < fuel)%nat →
  is_Some (getDescendantFolderIds fuel fs x).
Proof.
  intros Hac Hlt.
  destruct (bounded_height_returns fs (S (length fs)) x) as [ds Hds];
    [by apply acyclic_bounded_height|].
  exists ds. eapply getDescendantFolderIds_fuel_le; [|exact Hds]. lia.
Qed.

Lemma acyclicb_sound fs : acyclicb fs = true → acyclic fs.
Proof.
  unfold acyclicb. rewrite forallb_forall. intros Hall x Hx.
  destruct (descendant_first _ _ _ Hx) as (p & f & Hf & <- & _).
  specialize (Hall f (proj1 (list_elem_of_In _ _) Hf)).
  destruct (getDescendantFolderIds _ fs (id f)) as [ds|] eqn:E; [|done].
  apply negb_true_iff, bool_decide_eq_false in Hall.
  by apply Hall, (elem_of_getDescendantFolderIds _ _ _ _ _ E).
Qed.

Lemma acyclicb_complete fs : acyclic fs → acyclicb fs = true.
Proof.
  intros Hac. unfold acyclicb. apply forallb_forall. intros f _.
  destruct (acyclic_returns fs (id f) (S (length fs)) Hac) as [ds E]; [lia|].
  rewrite E. apply negb_true_iff, bool_decide_eq_false.
  intros Hin. apply (Hac (id f)).
  by apply (elem_of_getDescendantFolderIds _ _ _ _ _ E).
Qed.

(** The roots of the child forest are the children, in folder-list order. *)
Lemma childForest_roots fuel fs x ts :
  childForest fuel fs x = Some ts →
  label <$> ts = id <$> childrenOf fs x.
Proof.
  destruct fuel as [|k]; [done|]. cbn [childForest].
  intros E%mapM_Some. induction E as [|c t l ts' Hct _ IH]; [done|].
  rewrite !fmap_cons, IH. f_equal.
  destruct (childForest k fs (id c)); [|done]. by injection Hct as <-.
Qed.







(** C4: on an acyclic forest, the enumeration for a folder is the pre-order
    traversal of the forest of its children (each child followed by its own
    subtree, children in folder-list order); it lists exactly the ids that
    reach the folder through parent links, so neither the folder's own id
    nor any of its ancestors. *)
Theorem getDescendantFolderIds_preorder fs f fuel :
  acyclic fs →
  f ∈ fs →
  (length fs < fuel)%nat →
  ∃ ds ts,
    getDescendantFolderIds fuel fs (id f) = Some ds
    ∧ childForest fuel fs (id f) = Some ts
    ∧ ds = flat_map preorder ts
    ∧ (∀ d, d ∈ ds ↔ descendant fs d (id f))
    ∧ (id f ∉ ds)
    ∧ (∀ a, descendant fs (id f) a → a ∉ ds).
Proof.
  intros Hac Hf Hlt.
  destruct (acyclic_returns fs (id f) fuel Hac Hlt) as [ds Hds].
  pose proof Hds as Hforest. rewrite getDescendantFolderIds_forest in Hforest.
  destruct (childForest fuel fs (id f)) as [ts|]; [|done].
  injection Hforest as <-.
  pose proof (λ d, elem_of_getDescendantFolderIds _ _ _ _ d Hds) as Hmem.
  exists (flat_map preorder ts), ts. repeat split; try done.
  - by apply Hmem.
  - by apply Hmem.
  - intros Hin%Hmem. by apply (Hac (id f)).
  - intros a Ha Hin%Hmem. apply (Hac a). by eapply tc_transitive.
Qed.

End Acyclicity.

(** ** Deleting a folder *)

Section Delete.
Context `{host : Host}.
Implicit Types (st : State) (fs : list Folder).

Lemma deleteFolder_eq fuel fid st :
  deleteFolder fuel fid st
  = match getDescendantFolderIds fuel (folders st) fid with
    | Some ds =>
        Returned tt
          (published
             (set_folders
                (filter (λ f, id f ∉ fid :: ds) (folders st))
                (after_saveSessionFolders
                   (set_sessionFolders
                      (filter (λ kv, kv.2 ∉ fid :: ds) (sessionFolders st))
                      st))))
    | None => Diverged
    end.
Proof.
  unfold deleteFolder. unfold bind at 1, get_state at 1.
  unfold bind at 1, lift_fuel.
  destruct (getDescendantFolderIds fuel (folders st) fid) as [ds|]; [|done].
  unfold bind at 1, modify at 1.
  unfold bind at 1. rewrite saveSessionFolders_eq.
  unfold bind at 1, modify at 1.
  unfold bind at 1. rewrite saveFolders_eq.
  unfold bind, modify.
  set (st1 := after_saveSessionFolders _).
  assert (folders st1 = folders st) as ->; [|done].
  subst st1. by rewrite (proj1 (after_saveSessionFolders_model _)).
Qed.

(** C3: on an acyclic forest [deleteFolder] returns (for an id in the
    forest, and for any other id as well), and afterwards the folder list
    holds exactly the folders that were neither the target nor
    one of its descendants, in their former order; the assignment map holds
    exactly the entries whose folder was neither; so no entry that is left
    points at a folder that was removed. *)
Theorem deleteFolder_cascades fuel fid st :
  acyclic (folders st) →
  (length (folders st) < fuel)%nat →
  ∃ st',
    deleteFolder fuel fid st = Returned tt st'
    ∧ (∀ f, f ∈ folders st'
            ↔ f ∈ folders st
              ∧ id f ≠ fid ∧ ¬ descendant (folders st) (id f) fid)
    ∧ folders st' `sublist_of` folders st
    ∧ (∀ s v, sessionFolders st' !! s = Some v
              ↔ sessionFolders st !! s = Some v
                ∧ v ≠ fid ∧ ¬ descendant (folders st) v fid)
    ∧ (∀ s v f, sessionFolders st' !! s = Some v →
                f ∈ folders st → f ∉ folders st' → v ≠ id f).
Proof.
  intros Hac Hlt.
  destruct (acyclic_returns _ fid fuel Hac Hlt) as [ds Hds].
  pose proof (λ d, elem_of_getDescendantFolderIds _ _ _ _ d Hds) as Hmem.
  assert (∀ v, v ∉ fid :: ds ↔ v ≠ fid ∧ ¬ descendant (folders st) v fid)
    as Hall.
  { intros v. rewrite not_elem_of_cons, Hmem. tauto. }
  eexists. rewrite deleteFolder_eq, Hds. split; [done|].
  rewrite folders_published, sessionFolders_published.
  cbn [folders set_folders sessionFolders].
  rewrite (proj1 (proj2 (after_saveSessionFolders_model _))).
  cbn [sessionFolders set_sessionFolders].
  assert (∀ f, f ∈ filter (λ f, id f ∉ fid :: ds) (folders st)
               ↔ f ∈ folders st
                 ∧ id f ≠ fid ∧ ¬ descendant (folders st) (id f) fid) as Hfs.
  { intros f. rewrite list_elem_of_filter, Hall. tauto. }
  assert (∀ s v, filter (λ kv : string * string, kv.2 ∉ fid :: ds)
                   (sessionFolders st) !! s = Some v
                 ↔ sessionFolders st !! s = Some v
                   ∧ v ≠ fid ∧ ¬ descendant (folders st) v fid) as Hsf.
  { intros s v. rewrite map_lookup_filter_Some. cbn. by rewrite Hall. }
  split; [exact Hfs|]. split; [apply sublist_filter|]. split; [exact Hsf|].
  intros s v f (_ & Hv1 & Hv2)%Hsf Hf Hgone ->.
  apply Hgone, Hfs. done.
Qed.

Lemma deleteFolder_edges fuel fid st st' :
  deleteFolder fuel fid st = Returned tt st' →
  ∀ f, f ∈ folders st' → f ∈ folders st.
Proof.
  rewrite deleteFolder_eq.
  destruct (getDescendantFolderIds fuel (folders st) fid); [|done].
  intros [= <-] f. rewrite folders_published. cbn.
  by intros [_ ?]%list_elem_of_filter.
Qed.

End Delete.

Lemma getDescendantFolderIds_preorder_witness :
  ∃ ds, getDescendantFolderIds 4 sampleFolders "A" = Some ds ∧ "A" ∉ ds.
Proof.
  destruct (getDescendantFolderIds_preorder sampleFolders folderA 4)
    as (ds & ts & Hds & _ & _ & _ & Hself & _).
  - apply acyclicb_sound. reflexivity.
  - apply list_elem_of_here.
  - simpl. lia.
  - by exists ds.
Defined.

Lemma deleteFolder_cascades_witness :
  ∃ st', deleteFolder (host := offlineHost) 4 "A" sampleStore = Returned tt st'
         ∧ (∀ s v, sessionFolders st' !! s = Some v → v ≠ "A" ∧ v ≠ "B").
Proof.
  destruct (deleteFolder_cascades (host := offlineHost) 4 "A" sampleStore)
    as (st' & E & _ & _ & Hsf & Hgone).
  - apply acyclicb_sound. reflexivity.
  - simpl. lia.
  - exists st'. split; [exact E|]. intros s v Hv.
    destruct (proj1 (Hsf s v) Hv) as (_ & Hne & Hnd). split; [exact Hne|].
    intros ->. apply Hnd, tc_once. exists folderB.
    split; [|done]. apply list_elem_of_further, list_elem_of_here.
Defined.

(** ** Acyclicity is kept *)

Section Invariant.
Context `{host : Host}.
Implicit Types (st : State) (fs : list Folder).

Lemma is_child_insert fs i f f' c p :
  fs !! i = Some f →
  is_child (<[i := f']> fs) c p →
  is_child fs c p ∨ (id f' = c ∧ parentId f' = Some p).
Proof.
  intros Hi (g & Hg & Hc & Hp).
  apply list_elem_of_lookup in Hg as [j Hj].
  destruct (decide (j = i)) as [->|Hne].
  - rewrite list_lookup_insert_eq in Hj by by eapply lookup_lt_Some.
    injection Hj as <-. by right.
  - rewrite list_lookup_insert_ne in Hj by done.
    left. exists g. split; [by eapply list_elem_of_lookup_2|done].
Qed.

Lemma elem_of_insert_inv fs i f f' g :
  fs !! i = Some f → g ∈ <[i := f']> fs → g ∈ fs ∨ g = f'.
Proof.
  intros Hi [j Hj]%list_elem_of_lookup.
  destruct (decide (j = i)) as [->|Hne].
  - rewrite list_lookup_insert_eq in Hj by by eapply lookup_lt_Some.
    injection Hj as <-. by right.
  - rewrite list_lookup_insert_ne in Hj by done.
    left. by eapply list_elem_of_lookup_2.
Qed.

Lemma fresh_folder_id_nonempty now rnd : fresh_folder_id now rnd ≠ "".
Proof. done. Qed.

Lemma createFolder_keeps_acyclic now rnd nm col pid st f st' :
  unused_id (fresh_folder_id now rnd) pid (folders st) →
  createFolder now rnd nm col pid st = Returned f st' →
  acyclic (folders st) → ids_nonempty (folders st) →
  acyclic (folders st') ∧ ids_nonempty (folders st').
Proof.
  intros (_ & Hpar & Hpid). rewrite createFolder_eq. cbv zeta.
  intros [= <- <-] Hac Hne. rewrite folders_published.
  cbn [folders set_folders set_expandedFolders].
  set (g := fresh_folder_id now rnd) in *.
  set (new := mkFolder g nm _ pid _).
  assert (∀ c p, is_child (folders st ++ [new]) c p →
                 is_child (folders st) c p ∨ (c = g ∧ pid = Some p)) as Hsub.
  { intros c p (h & [Hh|Hh%list_elem_of_singleton]%elem_of_app & Hc & Hp).
    - left. by exists h.
    - subst h. right. by split. }
  split.
  - destruct pid as [p|].
    + apply (acyclic_add_edge (folders st) _ g p Hac).
      * congruence.
      * intros (c & h & Hh & _ & Hp)%descendant_last.
        apply Hpar, list_elem_of_fmap. by exists h.
      * intros c q Hcq. destruct (Hsub c q Hcq) as [?|[-> [= ->]]]; eauto.
    + apply (acyclic_subrel (folders st)); [|done].
      intros c q Hcq. by destruct (Hsub c q Hcq) as [?|[_ ?]].
  - intros h [Hh|Hh%list_elem_of_singleton]%elem_of_app; [by apply Hne|].
    subst h. apply fresh_folder_id_nonempty.
Qed.

Lemma updateFolder_keeps_acyclic fuel fid u st r st' :
  updateFolder fuel fid u st = Returned r st' →
  acyclic (folders st) → ids_nonempty (folders st) →
  acyclic (folders st') ∧ ids_nonempty (folders st').
Proof.
  intros E Hac Hne.
  destruct (list_find (λ f, id f = fid) (folders st)) as [[i f]|] eqn:Efind.
  2:{ rewrite (updateFolder_unknown _ _ _ _ Efind) in E. by injection E as <- <-. }
  rewrite (updateFolder_found _ _ _ _ _ _ Efind) in E.
  apply list_find_Some in Efind as (Hi & Hid & _).
  assert (f ∈ folders st) as Hf by by eapply list_elem_of_lookup_2.
  assert (∀ f', id f' = id f →
            ids_nonempty (<[i := f']> (folders st))) as Hne'.
  { intros f' Hid' h [?| ->]%(elem_of_insert_inv _ _ _ _ _ Hi); [by apply Hne|].
    rewrite Hid'. by apply Hne. }
  destruct (guard_refuses fuel (folders st) fid u) as [[|]|] eqn:G; [| |done].
  - injection E as <- <-. cbn [folders set_folders emit].
    destruct (apply_name_color_edges u f) as [Hid' Hp'].
    split; [|by apply Hne'].
    apply (acyclic_subrel (folders st)); [|done].
    intros c p [?|[<- Hp]]%(is_child_insert _ _ _ _ _ _ Hi); [done|].
    exists f. by rewrite <- Hid', <- Hp'.
  - injection E as <- <-. rewrite folders_published.
    cbn [folders set_folders].
    destruct (apply_updates_fields u f) as (Hid' & _ & _ & Hp' & _).
    split; [|by apply Hne'].
    unfold guard_refuses in G.
    destruct (upd_parentId u) as [[x|]|]; cbn in Hp'.
    + apply (acyclic_add_edge (folders st) _ fid x Hac).
      * destruct (truthy x) eqn:Hx.
        { case_bool_decide; [done|]. done. }
        intros ->. apply (Hne f Hf).
        unfold truthy in Hx. apply negb_false_iff, bool_decide_eq_true in Hx.
        congruence.
      * destruct (truthy x) eqn:Hx.
        { case_bool_decide; [done|].
          destruct (getDescendantFolderIds fuel (folders st) fid) as [ds|] eqn:Hds;
            [|done].
          injection G as G. apply bool_decide_eq_false in G.
          intros Hd. by apply G, (elem_of_getDescendantFolderIds _ _ _ _ _ Hds). }
        unfold truthy in Hx. apply negb_false_iff, bool_decide_eq_true in Hx.
        subst x. intros (p & h & Hh & Hh' & _)%descendant_first.
        by apply (Hne h Hh).
      * intros c p [?|[<- Hp]]%(is_child_insert _ _ _ _ _ _ Hi); [by left|].
        right. split; congruence.
    + apply (acyclic_subrel (folders st)); [|done].
      intros c p [?|[<- Hp]]%(is_child_insert _ _ _ _ _ _ Hi); [done|].
      congruence.
    + apply (acyclic_subrel (folders st)); [|done].
      intros c p [?|[<- Hp]]%(is_child_insert _ _ _ _ _ _ Hi); [done|].
      exists f. split; [done|]. split; congruence.
Qed.

Lemma step_keeps_acyclic st st' :
  step st st' →
  acyclic (folders st) → ids_nonempty (folders st) →
  acyclic (folders st') ∧ ids_nonempty (folders st').
Proof.
  intros [now rnd nm col pid st0 f st1 Hun E
         |fuel fid u st0 r st1 E
         |fuel fid st0 st1 E
         |s fo st0 st1 E] Hac Hne.
  - by eapply createFolder_keeps_acyclic.
  - by eapply updateFolder_keeps_acyclic.
  - pose proof (deleteFolder_edges _ _ _ _ E) as Hsub. split.
    + apply (acyclic_subrel (folders st0)); [|done].
      intros c p (h & Hh & ?). exists h. eauto.
    + intros h Hh. eauto.
  - destruct (moveSessionToFolder_model s fo st0) as (st2 & E2 & Hfs & _).
    rewrite E in E2. injection E2 as <-. by rewrite Hfs.
Qed.

(** C2, as the code has it: starting from an acyclic forest in which no
    folder has the empty string for its id, every state reached by
    [createFolder] (with an id that occurs nowhere in the store),
    [updateFolder], [deleteFolder] and [moveSessionToFolder] is acyclic,
    and still has no folder with an empty id. *)
Theorem acyclicity_is_invariant st st' :
  acyclic (folders st) →
  ids_nonempty (folders st) →
  rtc step st st' →
  acyclic (folders st') ∧ ids_nonempty (folders st').
Proof.
  intros Hac Hne Hsteps. induction Hsteps as [|st0 st1 st2 Hstep _ IH]; [done|].
  destruct (step_keeps_acyclic _ _ Hstep Hac Hne). by apply IH.
Qed.

End Invariant.

Lemma sampleFolders_ids_nonempty : ids_nonempty sampleFolders.
Proof.
  intros f Hf. unfold sampleFolders in Hf.
  repeat (apply elem_of_cons in Hf as [->|Hf]); try done.
  by apply elem_of_nil in Hf.
Qed.

Lemma acyclicity_is_invariant_witness :
  ∃ st', rtc (step (host := offlineHost)) sampleStore st'
         ∧ folders st' = [folderA; folderB; with_parentId (Some "B") folderC]
         ∧ acyclic (folders st').
Proof.
  pose proof (updateFolder_found (host := offlineHost) 4 "C"
                (reparent (Some "B")) sampleStore 2%nat folderC eq_refl) as E.
  change (guard_refuses 4 (folders sampleStore) "C" (reparent (Some "B")))
    with (Some false) in E.
  eexists. split; [|split].
  - apply rtc_once. eapply step_updateFolder. exact E.
  - by rewrite folders_published.
  - eapply (acyclicity_is_invariant (host := offlineHost) sampleStore).
    + apply acyclicb_sound. reflexivity.
    + exact sampleFolders_ids_nonempty.
    + apply rtc_once. eapply step_updateFolder. exact E.
Defined.

(** C2 as stated fails from a forest holding a folder whose id is the empty
    string: the forest is acyclic, one [updateFolder] makes that folder its
    own parent. *)
Lemma acyclicity_blank_id_counterexample :
  acyclic (folders blankStore)
  ∧ ∃ st', rtc (step (host := offlineHost)) blankStore st'
           ∧ folders st' = [with_parentId (Some "") blankFolder]
           ∧ ¬ acyclic (folders st').
Proof.
  split; [by apply acyclicb_sound|].
  pose proof (updateFolder_found (host := offlineHost) 1 ""
                (reparent (Some "")) blankStore 0%nat blankFolder eq_refl) as E.
  change (guard_refuses 1 (folders blankStore) "" (reparent (Some "")))
    with (Some false) in E.
  eexists. split; [|split].
  - apply rtc_once. eapply step_updateFolder. exact E.
  - by rewrite folders_published.
  - rewrite folders_published. intros Hac. apply (Hac ""), tc_once.
    exists (with_parentId (Some "") blankFolder).
    split; [apply list_elem_of_here|done].
Qed.

(** The earlier revision has no check at all: there a folder with an
    ordinary id can be made its own parent. *)
Lemma legacy_updateFolder_accepts_self_parent :
  ∃ st', Legacy.updateFolder (host := offlineHost) "A" (reparent (Some "A"))
           sampleStore
         = Returned (Some (with_parentId (Some "A") folderA)) st'
         ∧ folders st' = [with_parentId (Some "A") folderA; folderB; folderC]
         ∧ ¬ acyclic (folders st').
Proof.
  eexists. split; [|split].
  - unfold Legacy.updateFolder. unfold bind at 1, get_state at 1.
    change (list_find (λ f, id f = "A") (folders sampleStore))
      with (Some (0%nat, folderA)). cbv iota beta.
    unfold bind at 1. rewrite when_present_assign.
    unfold bind at 1. rewrite when_present_assign.
    unfold bind at 1. rewrite when_present_assign.
    unfold bind at 1. rewrite when_present_assign.
    unfold bind at 1. rewrite saveFolders_eq.
    unfold bind, modify, get_state, ret. reflexivity.
  - reflexivity.
  - cbn. intros Hac. apply (Hac "A"), tc_once.
    exists (with_parentId (Some "A") folderA).
    split; [apply list_elem_of_here|done].
Qed.

(** ** The tree view *)

Section Sorting.
Implicit Types (l : list Folder) (x : Folder).

Lemma sort_insert_perm {A} (cmp : A → A → Z) (a : A) (l : list A) :
  sort_insert cmp a l ≡ₚ a :: l.
Proof.
  induction l as [|y r IH]; [done|]. cbn.
  destruct (cmp a y <=? 0); [done|].
  by rewrite IH, Permutation_swap.
Qed.

Lemma js_sort_perm {A} (cmp : A → A → Z) (l : list A) : js_sort cmp l ≡ₚ l.
Proof.
  induction l as [|a l IH]; [done|]. cbn.
  by rewrite sort_insert_perm, IH.
Qed.

Lemma sort_insert_sorted x l :
  StronglySorted (λ a b, order a ≤ order b) l →
  StronglySorted (λ a b, order a ≤ order b) (sort_insert by_order x l).
Proof.
  induction 1 as [|y r Hr IH Hy]; cbn.
  - by repeat constructor.
  - unfold by_order at 1. destruct (Z.leb_spec (order x - order y) 0) as [Hle|Hgt].
    + constructor; [by constructor|].
      constructor; [lia|].
      eapply Forall_impl; [exact Hy|]. cbn. intros; lia.
    + constructor; [done|].
      rewrite sort_insert_perm. constructor; [lia|done].
Qed.

Lemma js_sort_sorted l :
  StronglySorted (λ a b, order a ≤ order b) (js_sort by_order l).
Proof.
  induction l as [|a l IH]; [constructor|]. cbn. by apply sort_insert_sorted.
Qed.

Lemma sort_insert_stable k x l :
  filter (λ f, order f = k) (sort_insert by_order x l)
  = filter (λ f, order f = k) (x :: l).
Proof.
  induction l as [|y r IH]; [done|]. cbn [sort_insert].
  unfold by_order at 1. destruct (Z.leb_spec (order x - order y) 0) as [Hle|Hgt];
    [done|].
  rewrite filter_cons, IH, !filter_cons.
  destruct (decide (order y = k)) as [Hy|Hy],
           (decide (order x = k)) as [Hx|Hx]; try done.
  lia.
Qed.

Lemma js_sort_stable k l :
  filter (λ f, order f = k) (js_sort by_order l) = filter (λ f, order f = k) l.
Proof.
  induction l as [|a l IH]; [done|]. cbn [js_sort foldr].
  fold (js_sort by_order l).
  by rewrite sort_insert_stable, !filter_cons, IH.
Qed.

Lemma js_sort_sorted_stably l : sorted_stably l (js_sort by_order l).
Proof.
  split; [apply js_sort_sorted|].
  split; [apply js_sort_perm|]. intros k. apply js_sort_stable.
Qed.

End Sorting.

Section TreeView.
Implicit Types (st : State) (sessions : list Session) (n : RenderNode).

Lemma for_of_items {A} (F : A → option RenderNode) (xs : list A)
    (acc : list RenderNode) :
  for_of xs
    (λ x html,
       match F x with
       | Some item => Some (html ++ [item])
       | None => None
       end) acc
  = (acc ++.) <$> mapM F xs.
Proof.
  revert acc. induction xs as [|x xs IH]; intros acc; cbn.
  - by rewrite app_nil_r.
  - destruct (F x) as [item|]; cbn; [|done]. rewrite IH.
    destruct (mapM F xs); cbn; [|done]. by rewrite <- app_assoc.
Qed.

Lemma groups_sorted_unfold st f d e h c kids ss :
  groups_sorted st (FolderItem f d e h c kids ss)
  ↔ (id f ∈ expandedFolders st →
     sorted_stably (childrenOf (folders st) (id f)) (item_folder <$> kids))
    ∧ (id f ∉ expandedFolders st → kids = [])
    ∧ Forall (groups_sorted st) kids.
Proof.
  cbn [groups_sorted]. do 2 apply and_iff_compat_l.
  induction kids as [|k r IH]; [by rewrite Forall_nil|].
  rewrite Forall_cons. by rewrite IH.
Qed.

Lemma renderFolderItem_S k st sessions folder depth :
  renderFolderItem (S k) st sessions folder depth
  = let isExpanded := bool_decide (id folder ∈ expandedFolders st) in
    let folderSessions := sessionsIn st sessions (id folder) in
    let childFolders := childrenOf (folders st) (id folder) in
    let hasContent :=
      bool_decide (0 < length folderSessions)%nat
      || bool_decide (0 < length childFolders)%nat in
    if isExpanded && hasContent then
      (λ kids, FolderItem folder depth isExpanded hasContent
                 (length folderSessions) kids folderSessions)
        <$> mapM (λ child, renderFolderItem k st sessions child (depth + 1))
                 (js_sort by_order childFolders)
    else
      Some (FolderItem folder depth isExpanded hasContent
                       (length folderSessions) [] []).
Proof.
  cbn [renderFolderItem]. cbv zeta. rewrite for_of_items.
  destruct (_ && _); [|done]. by destruct (mapM _ _).
Qed.

Lemma renderFolderItem_folder fuel st sessions folder depth n :
  renderFolderItem fuel st sessions folder depth = Some n →
  item_folder n = folder.
Proof.
  destruct fuel as [|k]; [done|]. rewrite renderFolderItem_S. cbv zeta.
  destruct (_ && _); [|by intros [= <-]].
  destruct (mapM _ _); [|done]. by intros [= <-].
Qed.

Lemma mapM_render_folders fuel st sessions depth (l : list Folder) kids :
  mapM (λ child, renderFolderItem fuel st sessions child depth) l = Some kids →
  item_folder <$> kids = l.
Proof.
  intros E. eapply mapM_fmap_Some_inv; [exact E|].
  intros child n. apply renderFolderItem_folder.
Qed.

Lemma renderFolderItem_groups fuel st sessions folder depth n :
  renderFolderItem fuel st sessions folder depth = Some n →
  groups_sorted st n.
Proof.
  revert folder depth n. induction fuel as [|k IH]; intros folder depth n;
    [done|].
  rewrite renderFolderItem_S. cbv zeta.
  destruct (_ && _) eqn:Hopen.
  - apply andb_true_iff in Hopen as [Hexp%bool_decide_eq_true _].
    destruct (mapM _ _) as [kids|] eqn:E; [|done]. intros [= <-].
    apply groups_sorted_unfold. split; [|split; [done|]].
    + intros _. rewrite (mapM_render_folders _ _ _ _ _ _ E).
      apply js_sort_sorted_stably.
    + apply mapM_Some in E. apply Forall_forall. intros kid Hkid.
      apply list_elem_of_lookup in Hkid as [j Hj].
      destruct (Forall2_lookup_r _ _ _ _ _ E Hj) as (child & _ & Hchild).
      by eapply IH.
  - intros [= <-]. apply groups_sorted_unfold.
    split; [|split; [done|constructor]].
    intros Hexp. rewrite (bool_decide_eq_true_2 _ Hexp) in Hopen.
    cbn in Hopen. apply orb_false_iff in Hopen as [_ Hnone].
    apply bool_decide_eq_false in Hnone.
    destruct (childrenOf (folders st) (id folder)) as [|c l];
      [|cbn in Hnone; lia].
    split; [constructor|]. by split.
Qed.

Lemma bounded_height_le fs (k m : nat) x :
  bounded_height fs k x → (k ≤ m)%nat → bounded_height fs m x.
Proof.
  intros Hb. revert m. induction Hb as [k x _ IH]. intros m Hle.
  destruct m as [|m]; [lia|]. constructor. intros c Hc Hp.
  apply IH; [done..|lia].
Qed.

Lemma bounded_height_renders st sessions fuel folder depth :
  bounded_height (folders st) fuel (id folder) →
  is_Some (renderFolderItem fuel st sessions folder depth).
Proof.
  remember (id folder) as x eqn:Hx. intros Hb. revert folder depth Hx.
  induction Hb as [k x _ IH]. intros folder depth ->.
  rewrite renderFolderItem_S. cbv zeta.
  destruct (_ && _); [|done].
  apply fmap_is_Some, mapM_is_Some, Forall_forall.
  intros child Hchild. rewrite js_sort_perm in Hchild.
  apply elem_of_childrenOf in Hchild as [Hc Hp]. cbn. by eapply IH.
Qed.

(** C7: the rendered tree shows the root folders of the store, and under
    every folder that is expanded all the child folders it has in the
    store (under a collapsed one none); each such group stands in
    ascending [order], and folders of equal [order] stand as they do in
    the folder list.  On an acyclic forest the tree is rendered once the
    call stack has room for more activations than there are folders. *)
Theorem tree_view_siblings_sorted st sessions fuel :
  (∀ view,
     renderList fuel st sessions = Some view →
     sorted_stably
       (filter (λ f, truthy_opt (parentId f) = false) (folders st))
       (item_folder <$> items view)
     ∧ Forall (groups_sorted st) (items view))
  ∧ (acyclic (folders st) → (length (folders st) < fuel)%nat →
     is_Some (renderList fuel st sessions)).
Proof.
  unfold renderList. rewrite for_of_items. split.
  - intros view.
    destruct (mapM _ (rootFolders st)) as [html|] eqn:E; [|done]. cbn.
    pose proof (mapM_render_folders _ _ _ _ _ _ E) as Hroots.
    case_bool_decide as Hlen.
    + intros [= <-]. cbn. apply nil_length_inv in Hlen. rewrite Hlen.
      split; [|constructor]. split; [constructor|]. by split.
    + intros [= <-]. cbn. rewrite Hroots. split.
      * apply js_sort_sorted_stably.
      * apply mapM_Some in E. apply Forall_forall. intros kid Hkid.
        apply list_elem_of_lookup in Hkid as [j Hj].
        destruct (Forall2_lookup_r _ _ _ _ _ E Hj) as (child & _ & Hchild).
        by eapply renderFolderItem_groups.
  - intros Hac Hlt.
    assert (is_Some (mapM (λ folder, renderFolderItem fuel st sessions folder 0)
                          (rootFolders st))) as [html ->].
    { apply mapM_is_Some, Forall_forall. intros folder _. cbn.
      apply bounded_height_renders.
      eapply bounded_height_le; [by apply acyclic_bounded_height|lia]. }
    cbn. by case_bool_decide.
Qed.

End TreeView.

Lemma tree_view_siblings_sorted_witness :
  ∃ view,
    renderList 4 openStore sampleSessions = Some view
    ∧ item_folder <$> items view = [folderA; folderC]
    ∧ item_folder <$> (items view ≫= item_children) = [folderB]
    ∧ sorted_stably [folderC; folderA] (item_folder <$> items view)
    ∧ Forall (groups_sorted openStore) (items view).
Proof.
  destruct (tree_view_siblings_sorted openStore sampleSessions 4)
    as [Hsorted Hreturns].
  destruct Hreturns as [view E].
  - apply acyclicb_sound. reflexivity.
  - simpl. lia.
  - exists view. destruct (Hsorted view E) as [Hroots Hgroups].
    split; [exact E|]. split; [|split; [|by split]].
    + revert E. vm_compute. by intros [= <-].
    + revert E. vm_compute. by intros [= <-].
Defined.

(** * More properties of the code *)

(** ** Escaping attribute values *)

Section Escaping.
Implicit Types (s t : string) (a c : ascii).

Lemma append_cons a s t : String a s +:+ t = String a (s +:+ t).
Proof. done. Qed.

Lemma append_nil t : "" +:+ t = t.
Proof. done. Qed.

Local Ltac append_simpl := rewrite ?append_cons, ?append_nil.

Lemma string_app_assoc s t u : (s +:+ t) +:+ u = s +:+ (t +:+ u).
Proof.
  induction s as [|a s IH]; [done|]. append_simpl. by rewrite IH.
Qed.

Lemma replace_global_app c rep s t :
  replace_global c rep (s +:+ t)
  = replace_global c rep s +:+ replace_global c rep t.
Proof.
  induction s as [|a s IH]; [done|]. append_simpl. cbn [replace_global].
  destruct (decide (a = c)); rewrite IH; [|done].
  by rewrite string_app_assoc.
Qed.

Lemma escapeAttr_cons a s : escapeAttr (String a s) = escape_char a +:+ escapeAttr s.
Proof.
  unfold escapeAttr, escape_char, dquote.
  cbn [replace_global].
  destruct (decide (a = "&"%char)) as [->|]; [by rewrite !replace_global_app|].
  cbn [replace_global].
  destruct (decide (a = "034"%char)) as [->|]; [by rewrite !replace_global_app|].
  cbn [replace_global].
  destruct (decide (a = "'"%char)) as [->|]; [by rewrite !replace_global_app|].
  cbn [replace_global].
  destruct (decide (a = "<"%char)) as [->|]; [by rewrite !replace_global_app|].
  cbn [replace_global].
  destruct (decide (a = ">"%char)) as [->|]; done.
Qed.

(** The five passes amount to one pass that replaces each character by its
    entity. *)
Lemma escapeAttr_chars s : escapeAttr s = escape_chars s.
Proof.
  induction s as [|a s IH]; [done|].
  by rewrite escapeAttr_cons, IH.
Qed.

Lemma chars_app s t : chars (s +:+ t) = chars s ++ chars t.
Proof.
  induction s as [|a s IH]; [done|]. append_simpl. cbn. by rewrite IH.
Qed.

Lemma escape_chars_app s t :
  escape_chars (s +:+ t) = escape_chars s +:+ escape_chars t.
Proof.
  induction s as [|a s IH]; [done|]. append_simpl. cbn [escape_chars].
  by rewrite IH, string_app_assoc.
Qed.

(** X1: escaped text holds no double quote, no single quote, no [<] and no
    [>]: placed inside a quoted attribute, or between tags, it cannot end
    the attribute or open a tag. *)
Theorem escapeAttr_no_markup s a :
  a ∈ chars (escapeAttr s) →
  a ≠ dquote ∧ a ≠ "'"%char ∧ a ≠ "<"%char ∧ a ≠ ">"%char.
Proof.
  rewrite escapeAttr_chars. induction s as [|b s IH]; cbn.
  - by intros ?%elem_of_nil.
  - rewrite chars_app, elem_of_app. intros [Ha|Ha]; [|by apply IH].
    unfold escape_char, dquote in *.
    repeat case_decide; cbn in Ha;
      repeat (apply elem_of_cons in Ha as [->|Ha]);
      try (by apply elem_of_nil in Ha); done.
Qed.

Lemma escapeAttr_no_markup_witness :
  (dquote ∉ chars (escapeAttr (String dquote "><'")))
  ∧ escapeAttr (String dquote "><'") = "&quot;&gt;&lt;&#39;".
Proof.
  split; [|reflexivity].
  intros Hin.
  by destruct (escapeAttr_no_markup (String dquote "><'") dquote Hin) as [? _].
Defined.

(** X2: escaping loses nothing: two texts with the same escaped form are
    the same text. *)
Theorem escapeAttr_inj s t : escapeAttr s = escapeAttr t → s = t.
Proof.
  rewrite !escapeAttr_chars. revert t.
  induction s as [|a s IH]; intros [|b t]; cbn; [done|..].
  - unfold escape_char. repeat case_decide; done.
  - unfold escape_char. repeat case_decide; done.
  - unfold escape_char, dquote.
    repeat case_decide; cbn; intros Heq; simplify_eq; try done;
      by rewrite (IH t).
Qed.

Lemma escapeAttr_inj_witness : "a&b" = "a&b".
Proof. apply (escapeAttr_inj "a&b" "a&b"). reflexivity. Defined.

(** X3: text without [&], quotes, [<] and [>] is left as it is, and a text in
    two pieces is escaped piece by piece. *)
Theorem escapeAttr_plain_and_pieces s t :
  ((∀ a, a ∈ chars s →
      a ≠ "&"%char ∧ a ≠ dquote ∧ a ≠ "'"%char ∧ a ≠ "<"%char ∧ a ≠ ">"%char) →
   escapeAttr s = s)
  ∧ escapeAttr (s +:+ t) = escapeAttr s +:+ escapeAttr t.
Proof.
  split; [|by rewrite !escapeAttr_chars, escape_chars_app].
  rewrite escapeAttr_chars. induction s as [|a s IH]; [done|].
  intros Hsafe. cbn.
  destruct (Hsafe a) as (? & ? & ? & ? & ?); [apply list_elem_of_here|].
  unfold escape_char. repeat case_decide; try done. cbn.
  rewrite IH; [done|]. intros c Hc. apply Hsafe. by apply list_elem_of_further.
Qed.

Lemma escapeAttr_plain_and_pieces_witness : escapeAttr "folder-1" = "folder-1".
Proof.
  destruct (escapeAttr_plain_and_pieces "folder-1" "") as [Hplain _].
  apply Hplain. intros a Ha. cbn in Ha.
  repeat (apply elem_of_cons in Ha as [->|Ha]); [..|by apply elem_of_nil in Ha];
    by repeat split.
Defined.

End Escaping.

(** ** Expansion state and the stored documents *)

Section Persistence.
Context `{host : Host}.
Implicit Types (st : State).

Lemma set_expandedFolders_same st :
  set_expandedFolders (expandedFolders st) st = st.
Proof. by destruct st. Qed.

Lemma saveExpandedFolders_returns st :
  ∃ st', saveExpandedFolders st = Returned tt st'
    ∧ same_model st st'
    ∧ (LawfulHost host →
       st' = set_disk
               (<["expanded-folders.json" :=
                    JSON_stringify_ids (elements (expandedFolders st))]>
                  (disk st)) st).
Proof.
  unfold saveExpandedFolders, try_catch, bind, get_state, write, modify.
  destruct (storage_write _ _ _) as [d|e] eqn:E; eexists; (split; [done|]);
    (split; [done|]); intros Hlaw; rewrite (lawful_write _ Hlaw) in E;
    by simplify_eq.
Qed.

Lemma toggleFolder_returns folderId st :
  ∃ st', toggleFolder folderId st = Returned tt st'
    ∧ folders st' = folders st
    ∧ sessionFolders st' = sessionFolders st
    ∧ expandedFolders st'
      = (if bool_decide (folderId ∈ expandedFolders st)
         then expandedFolders st ∖ {[folderId]}
         else {[folderId]} ∪ expandedFolders st)
    ∧ (LawfulHost host →
       disk st'
       = <["expanded-folders.json" :=
             JSON_stringify_ids (elements (expandedFolders st'))]> (disk st)).
Proof.
  unfold toggleFolder. unfold bind at 1, get_state at 1.
  set (E' := if bool_decide (folderId ∈ expandedFolders st)
             then expandedFolders st ∖ {[folderId]}
             else {[folderId]} ∪ expandedFolders st).
  assert ((if bool_decide (folderId ∈ expandedFolders st)
           then modify (λ st0, set_expandedFolders
                                 (expandedFolders st0 ∖ {[folderId]}) st0)
           else modify (λ st0, set_expandedFolders
                                 ({[folderId]} ∪ expandedFolders st0) st0)) st
          = Returned tt (set_expandedFolders E' st)) as Hmod.
  { subst E'. by case_bool_decide. }
  unfold bind at 1. rewrite Hmod.
  unfold bind, get_state, modify, try_catch, write. cbn.
  destruct (storage_write _ _ _) as [d|e] eqn:Hw; eexists;
    (split; [done|]); cbn; (do 3 (split; [done|])); intros Hlaw;
    rewrite (lawful_write _ Hlaw) in Hw; by simplify_eq.
Qed.

(** X4: toggling a folder flips the membership of that id in the expansion
    set and of no other, leaves folders and assignments alone, and a second
    toggle restores the expansion set. *)
Theorem toggleFolder_twice folderId st :
  ∃ st1 st2,
    toggleFolder folderId st = Returned tt st1
    ∧ toggleFolder folderId st1 = Returned tt st2
    ∧ (folderId ∈ expandedFolders st1 ↔ folderId ∉ expandedFolders st)
    ∧ (∀ x, x ≠ folderId →
         (x ∈ expandedFolders st1 ↔ x ∈ expandedFolders st))
    ∧ expandedFolders st2 = expandedFolders st
    ∧ folders st2 = folders st
    ∧ sessionFolders st2 = sessionFolders st.
Proof.
  destruct (toggleFolder_returns folderId st)
    as (st1 & E1 & Hf1 & Hs1 & He1 & _).
  destruct (toggleFolder_returns folderId st1)
    as (st2 & E2 & Hf2 & Hs2 & He2 & _).
  exists st1, st2. rewrite Hf2, Hs2, Hf1, Hs1.
  split; [done|]. split; [done|].
  destruct (decide (folderId ∈ expandedFolders st)) as [Hin|Hnin].
  - rewrite bool_decide_eq_true_2 in He1 by done.
    assert (folderId ∉ expandedFolders st1) as Hout.
    { rewrite He1, elem_of_difference, elem_of_singleton. tauto. }
    rewrite bool_decide_eq_false_2 in He2 by done.
    rewrite He2, He1. split; [|split; [|split; [|done]]].
    + rewrite elem_of_difference, elem_of_singleton. tauto.
    + intros x Hx. rewrite elem_of_difference, elem_of_singleton. tauto.
    + apply set_eq. intros x.
      rewrite elem_of_union, elem_of_difference, elem_of_singleton.
      destruct (decide (x = folderId)) as [->|]; tauto.
  - rewrite bool_decide_eq_false_2 in He1 by done.
    assert (folderId ∈ expandedFolders st1) as Hback.
    { rewrite He1, elem_of_union, elem_of_singleton. tauto. }
    rewrite bool_decide_eq_true_2 in He2 by done.
    rewrite He2, He1. split; [|split; [|split; [|done]]].
    + rewrite elem_of_union, elem_of_singleton. tauto.
    + intros x Hx. rewrite elem_of_union, elem_of_singleton. tauto.
    + apply set_eq. intros x.
      rewrite elem_of_difference, elem_of_union, elem_of_singleton.
      destruct (decide (x = folderId)) as [->|]; tauto.
Qed.

Lemma saveFolders_lawful st :
  LawfulHost host →
  saveFolders st
  = Returned tt
      (set_disk (<["folders.json" := JSON_stringify_folders (folders st)]>
                   (disk st)) st).
Proof.
  intros Hlaw. rewrite saveFolders_eq. unfold after_saveFolders.
  by rewrite (lawful_write _ Hlaw).
Qed.

Lemma saveSessionFolders_lawful st :
  LawfulHost host →
  saveSessionFolders st
  = Returned tt
      (set_disk (<["session-folders.json" :=
                     JSON_stringify_sessionFolders (sessionFolders st)]>
                   (disk st)) st).
Proof.
  intros Hlaw. rewrite saveSessionFolders_eq. unfold after_saveSessionFolders.
  by rewrite (lawful_write _ Hlaw).
Qed.

Lemma after_saveFolders_lawful st :
  LawfulHost host →
  after_saveFolders st
  = set_disk (<["folders.json" := JSON_stringify_folders (folders st)]>
                (disk st)) st.
Proof.
  intros Hlaw. unfold after_saveFolders. by rewrite (lawful_write _ Hlaw).
Qed.

Lemma after_saveSessionFolders_lawful st :
  LawfulHost host →
  after_saveSessionFolders st
  = set_disk (<["session-folders.json" :=
                  JSON_stringify_sessionFolders (sessionFolders st)]>
                (disk st)) st.
Proof.
  intros Hlaw. unfold after_saveSessionFolders.
  by rewrite (lawful_write _ Hlaw).
Qed.

(** What [load] leaves in memory, document by document. *)
Lemma load_result st :
  ∃ st',
    load st = Returned tt st'
    ∧ disk st' = disk st
    ∧ folders st'
      = match storage_read (disk st) "folders.json" with
        | inl content => default [] (JSON_parse_folders content)
        | inr _ => []
        end
    ∧ sessionFolders st'
      = match storage_read (disk st) "session-folders.json" with
        | inl content => default ∅ (JSON_parse_sessionFolders content)
        | inr _ => ∅
        end
    ∧ expandedFolders st'
      = (let loaded :=
           match storage_read (disk st) "expanded-folders.json" with
           | inl content =>
               match JSON_parse_ids content with
               | Some ids => list_to_set ids
               | None => expandedFolders st
               end
           | inr _ => expandedFolders st
           end in
         if bool_decide (size loaded = 0%nat)
         then list_to_set (id <$> folders st') ∪ loaded
         else loaded).
Proof.
  unfold load, bind at 1. rewrite loadFolders_eq.
  unfold bind at 1. rewrite loadSessionFolders_eq.
  set (st2 := set_sessionFolders _ _).
  unfold bind at 1.
  assert (∃ E, loadExpandedFolders st2
                 = Returned tt (set_expandedFolders E st2)
               ∧ E = match storage_read (disk st) "expanded-folders.json" with
                     | inl content =>
                         match JSON_parse_ids content with
                         | Some ids => list_to_set ids
                         | None => expandedFolders st
                         end
                     | inr _ => expandedFolders st
                     end) as (E & -> & HE).
  { unfold loadExpandedFolders, try_catch, bind, read, parse, modify, ret.
    change (disk st2) with (disk st).
    assert (Returned tt st2
            = Returned tt (set_expandedFolders (expandedFolders st) st2))
      as Hsame.
    { change (expandedFolders st) with (expandedFolders st2).
      by rewrite set_expandedFolders_same. }
    destruct (storage_read (disk st) "expanded-folders.json") as [content|e].
    - destruct (JSON_parse_ids content) as [ids|]; eexists; split; done.
    - eexists; split; done. }
  unfold bind, get_state, modify, ret. cbn [expandedFolders set_expandedFolders].
  cbv zeta. rewrite <- HE.
  case_bool_decide; eexists; (split; [done|]); cbn;
    by rewrite ?bool_decide_eq_true_2, ?bool_decide_eq_false_2 by done.
Qed.

Lemma lawful_read_lookup st key :
  LawfulHost host →
  storage_read (disk st) key
  = match disk st !! key with
    | Some v => inl v
    | None => storage_read (disk st) key
    end.
Proof.
  intros Hlaw. destruct (disk st !! key) eqn:E; [|done].
  by apply (lawful_read_Some _ Hlaw).
Qed.

(** X5: with a storage that keeps what it is given, saving the three
    documents, dropping the state in memory and loading brings back the
    folder list and the assignment map, and the expansion set when it was
    not empty; an empty expansion set comes back as all folders expanded. *)
Theorem save_cleanup_load_roundtrip st :
  LawfulHost host →
  ∃ st',
    (saveAll;;; restart) st = Returned tt st'
    ∧ folders st' = folders st
    ∧ sessionFolders st' = sessionFolders st
    ∧ expandedFolders st'
      = if bool_decide (expandedFolders st = ∅)
        then list_to_set (id <$> folders st)
        else expandedFolders st.
Proof.
  intros Hlaw. unfold saveAll, restart.
  unfold bind at 1. unfold bind at 1. rewrite (saveFolders_lawful _ Hlaw).
  unfold bind at 1. rewrite (saveSessionFolders_lawful _ Hlaw).
  set (st2 := set_disk _ (set_disk _ st)).
  destruct (saveExpandedFolders_returns st2) as (st3 & E3 & _ & Hst3).
  specialize (Hst3 Hlaw).
  rewrite E3. unfold bind at 1, cleanup at 1, modify at 1.
  set (st4 := mkState _ _ _ _ _).
  destruct (load_result st4) as (st' & E & _ & Hf & Hs & He).
  exists st'. split; [exact E|].
  assert (disk st4 !! "folders.json"
          = Some (JSON_stringify_folders (folders st))) as Hd1.
  { subst st4 st3 st2. cbn.
    rewrite lookup_insert_ne, lookup_insert_ne, lookup_insert_eq; done. }
  assert (disk st4 !! "session-folders.json"
          = Some (JSON_stringify_sessionFolders (sessionFolders st))) as Hd2.
  { subst st4 st3 st2. cbn.
    rewrite lookup_insert_ne, lookup_insert_eq; done. }
  assert (disk st4 !! "expanded-folders.json"
          = Some (JSON_stringify_ids (elements (expandedFolders st)))) as Hd3.
  { subst st4 st3 st2. cbn. by rewrite lookup_insert_eq. }
  rewrite (lawful_read_Some _ Hlaw _ _ _ Hd1), (lawful_folders _ Hlaw) in Hf.
  rewrite (lawful_read_Some _ Hlaw _ _ _ Hd2),
    (lawful_sessionFolders _ Hlaw) in Hs.
  rewrite (lawful_read_Some _ Hlaw _ _ _ Hd3), (lawful_ids _ Hlaw) in He.
  cbn in Hf, Hs. rewrite Hf, Hs. split; [done|]. split; [done|].
  rewrite He. cbv zeta. rewrite list_to_set_elements_L, Hf. cbn.
  destruct (decide (expandedFolders st = ∅)) as [Hemp|Hne].
  - rewrite Hemp, bool_decide_eq_true_2 by done.
    rewrite bool_decide_eq_true_2 by done. apply union_empty_r_L.
  - rewrite (bool_decide_eq_false_2 (expandedFolders st = ∅)) by done.
    rewrite bool_decide_eq_false_2; [done|].
    intros Hsz. apply Hne. apply leibniz_equiv. by apply size_empty_inv.
Qed.

Lemma persisted_published st :
  LawfulHost host →
  (∃ text, disk st !! "session-folders.json" = Some text
           ∧ JSON_parse_sessionFolders text = Some (sessionFolders st)) →
  persisted (published st).
Proof.
  intros Hlaw (text & Hd & Hparse). unfold published.
  rewrite (after_saveFolders_lawful _ Hlaw). split; cbn.
  - eexists. rewrite lookup_insert_eq. split; [done|].
    apply (lawful_folders _ Hlaw).
  - exists text. by rewrite lookup_insert_ne.
Qed.

Lemma sessions_stored_after_save st :
  LawfulHost host →
  ∃ text, disk (after_saveSessionFolders st) !! "session-folders.json"
          = Some text
          ∧ JSON_parse_sessionFolders text
            = Some (sessionFolders (after_saveSessionFolders st)).
Proof.
  intros Hlaw. rewrite (after_saveSessionFolders_lawful _ Hlaw). cbn.
  eexists. rewrite lookup_insert_eq. split; [done|].
  apply (lawful_sessionFolders _ Hlaw).
Qed.

(** X6: with a storage that keeps what it is given, a store whose documents
    match memory still has them matching after [createFolder], an accepted
    [updateFolder], [deleteFolder], [moveSessionToFolder] and
    [toggleFolder]. *)
Theorem mutations_keep_persisted st :
  LawfulHost host →
  persisted st →
  (∀ now rnd nm col pid f st',
     createFolder now rnd nm col pid st = Returned f st' → persisted st')
  ∧ (∀ fuel fid u f st',
       updateFolder fuel fid u st = Returned (Some f) st' → persisted st')
  ∧ (∀ fuel fid st',
       deleteFolder fuel fid st = Returned tt st' → persisted st')
  ∧ (∀ s fo st',
       moveSessionToFolder s fo st = Returned tt st' → persisted st')
  ∧ (∀ fid st', toggleFolder fid st = Returned tt st' → persisted st').
Proof.
  intros Hlaw [Hfs Hss]. split; [|split; [|split; [|split]]].
  - intros now rnd nm col pid f st'. rewrite createFolder_eq. cbv zeta.
    intros [= _ <-]. by apply persisted_published.
  - intros fuel fid u f st' E.
    destruct (list_find (λ f, id f = fid) (folders st)) as [[i g]|] eqn:Efind.
    2:{ by rewrite (updateFolder_unknown _ _ _ _ Efind) in E. }
    rewrite (updateFolder_found _ _ _ _ _ _ Efind) in E.
    destruct (guard_refuses fuel (folders st) fid u) as [[|]|]; [done| |done].
    injection E as _ <-. by apply persisted_published.
  - intros fuel fid st'. rewrite deleteFolder_eq.
    destruct (getDescendantFolderIds fuel (folders st) fid) as [ds|]; [|done].
    intros [= <-]. apply persisted_published; [done|].
    apply (sessions_stored_after_save _ Hlaw).
  - intros s fo st'. rewrite moveSessionToFolder_eq. intros [= <-].
    set (st1 := set_sessionFolders _ st).
    destruct (sessions_stored_after_save st1 Hlaw) as (text & Hd & Hparse).
    destruct Hfs as (ftext & Hfd & Hfparse).
    split; cbn.
    + exists ftext. rewrite (after_saveSessionFolders_lawful _ Hlaw). cbn.
      by rewrite lookup_insert_ne.
    + by exists text.
  - intros fid st' E.
    destruct (toggleFolder_returns fid st) as (st1 & E1 & Hf & Hs & _ & Hd).
    rewrite E1 in E. injection E as <-.
    destruct Hfs as (ftext & Hfd & Hfparse), Hss as (stext & Hsd & Hsparse).
    split; rewrite ?Hf, ?Hs, (Hd Hlaw); [exists ftext|exists stext];
      by rewrite lookup_insert_ne.
Qed.

(** X7: with such a storage, a store whose documents match memory comes
    back from a restart ([cleanup], then the loads of [init]) with the same
    folder list and the same assignment map. *)
Theorem restart_restores_persisted st :
  LawfulHost host →
  persisted st →
  ∃ st', restart st = Returned tt st'
    ∧ folders st' = folders st
    ∧ sessionFolders st' = sessionFolders st.
Proof.
  intros Hlaw [(ftext & Hfd & Hfparse) (stext & Hsd & Hsparse)].
  unfold restart, bind, cleanup at 1, modify at 1.
  set (st0 := mkState _ _ _ _ _).
  destruct (load_result st0) as (st' & E & _ & Hf & Hs & _).
  exists st'. split; [exact E|].
  change (disk st0) with (disk st) in Hf, Hs.
  rewrite (lawful_read_Some _ Hlaw _ _ _ Hfd), Hfparse in Hf.
  rewrite (lawful_read_Some _ Hlaw _ _ _ Hsd), Hsparse in Hs.
  by rewrite Hf, Hs.
Qed.

(** X8: a refused re-parenting that carries a new name or color leaves
    memory ahead of storage: the folder is changed in memory, nothing is
    written, and the stored folder document no longer matches. *)
Theorem refused_update_outruns_storage fuel fid u st i f st' :
  persisted st →
  list_find (λ f, id f = fid) (folders st) = Some (i, f) →
  updateFolder fuel fid u st = Returned None st' →
  apply_name_color u f ≠ f →
  folders st' = <[i := apply_name_color u f]> (folders st)
  ∧ folders st' !! i = Some (apply_name_color u f)
  ∧ disk st' = disk st
  ∧ ¬ persisted st'.
Proof.
  intros [(ftext & Hfd & Hfparse) _] Efind E Hchanged.
  rewrite (updateFolder_found _ _ _ _ _ _ Efind) in E.
  apply list_find_Some in Efind as (Hi & _ & _).
  destruct (guard_refuses fuel (folders st) fid u) as [[|]|]; [|done..].
  injection E as <-. cbn.
  assert (<[i := apply_name_color u f]> (folders st) !! i
          = Some (apply_name_color u f)) as Hnew.
  { apply list_lookup_insert_eq. by eapply lookup_lt_Some. }
  repeat split; try done.
  intros [(text & Hd & Hparse) _]. cbn in Hd, Hparse.
  rewrite Hfd in Hd. injection Hd as <-. rewrite Hfparse in Hparse.
  injection Hparse as Heq. rewrite <- Heq in Hnew. congruence.
Qed.

(** X9: on a first run -- nothing expanded in memory and no readable
    expansion document -- [load] expands every folder it has loaded. *)
Theorem first_run_expands_all st :
  expandedFolders st = ∅ →
  load_fails "expanded-folders.json" JSON_parse_ids st →
  ∃ st', load st = Returned tt st'
    ∧ expandedFolders st' = list_to_set (id <$> folders st').
Proof.
  intros Hemp Hfail. destruct (load_result st) as (st' & E & _ & _ & _ & He).
  exists st'. split; [exact E|]. rewrite He. cbv zeta.
  unfold load_fails in Hfail.
  assert (match storage_read (disk st) "expanded-folders.json" with
          | inl content =>
              match JSON_parse_ids content with
              | Some ids => list_to_set ids
              | None => expandedFolders st
              end
          | inr _ => expandedFolders st
          end = (∅ : gset string)) as ->.
  { destruct (storage_read _ _); [by rewrite Hfail|done]. }
  rewrite bool_decide_eq_true_2 by done. apply union_empty_r_L.
Qed.

(** X10: [createFolder] expands the new folder in memory but writes no
    expansion document: with a stored, non-empty expansion document that
    does not list the new id, the folder is expanded until the next restart
    and collapsed after it. *)
Theorem created_folder_collapsed_after_restart now rnd nm col pid st text ids :
  LawfulHost host →
  disk st !! "expanded-folders.json" = Some text →
  JSON_parse_ids text = Some ids →
  ids ≠ [] →
  fresh_folder_id now rnd ∉ ids →
  ∃ f st1 st2,
    createFolder now rnd nm col pid st = Returned f st1
    ∧ id f = fresh_folder_id now rnd
    ∧ id f ∈ expandedFolders st1
    ∧ restart st1 = Returned tt st2
    ∧ f ∈ folders st2
    ∧ id f ∉ expandedFolders st2.
Proof.
  intros Hlaw Hd Hparse Hne Hfresh.
  eexists _, _. rewrite createFolder_eq. cbv zeta.
  set (f := mkFolder (fresh_folder_id now rnd) nm _ pid _).
  set (st1 := published _).
  unfold restart, bind, cleanup at 1, modify at 1.
  set (st0 := mkState _ _ _ _ _).
  destruct (load_result st0) as (st2 & E & _ & Hf & _ & He).
  exists st2. split; [done|]. split; [done|].
  assert (disk st0 = <["folders.json" :=
                         JSON_stringify_folders (folders st ++ [f])]> (disk st))
    as Hdisk.
  { subst st0 st1. unfold published.
    by rewrite (after_saveFolders_lawful _ Hlaw). }
  split.
  { subst st1. rewrite expandedFolders_published. cbn.
    apply elem_of_union_l, elem_of_singleton. done. }
  split; [exact E|].
  rewrite Hdisk in Hf, He.
  rewrite (lawful_read_Some _ Hlaw _ "folders.json" _ (lookup_insert_eq _ _ _)),
    (lawful_folders _ Hlaw) in Hf.
  assert (<["folders.json" := JSON_stringify_folders (folders st ++ [f])]>
            (disk st) !! "expanded-folders.json" = Some text) as Hd'
    by by rewrite lookup_insert_ne.
  rewrite (lawful_read_Some _ Hlaw _ _ _ Hd'), Hparse in He.
  cbn in Hf. split.
  - rewrite Hf. apply elem_of_app. right. apply list_elem_of_here.
  - rewrite He. cbv zeta.
    rewrite bool_decide_eq_false_2.
    + by rewrite elem_of_list_to_set.
    + intros Hsz. apply size_empty_inv, leibniz_equiv in Hsz.
      destruct ids as [|x ids']; [done|].
      assert (x ∈ (list_to_set (x :: ids') : gset string)) as Hx
        by (apply elem_of_list_to_set, list_elem_of_here).
      rewrite Hsz in Hx. by apply not_elem_of_empty in Hx.
Qed.

End Persistence.

Lemma pos_of_bits_of_pos p : pos_of_bits (bits_of_pos p) = p.
Proof. induction p as [p IH|p IH|]; cbn; by rewrite ?IH. Qed.

Lemma parse_print_doc {A} `{Countable A} (x : A) :
  parse_doc (print_doc x) = Some x.
Proof.
  unfold parse_doc, print_doc. rewrite pos_of_bits_of_pos. apply decode_encode.
Qed.

Lemma memoryHost_lawful : LawfulHost memoryHost.
Proof.
  split; cbn.
  - done.
  - by intros d k v ->.
  - intros d k ->. by eexists.
  - intros l. apply parse_print_doc.
  - intros m. apply parse_print_doc.
  - intros l. apply parse_print_doc.
Qed.

Lemma savedStore_persisted : persisted (host := memoryHost) savedStore.
Proof.
  unfold savedStore.
  rewrite (after_saveSessionFolders_lawful _ memoryHost_lawful),
    (after_saveFolders_lawful _ memoryHost_lawful).
  split; cbn.
  - eexists. rewrite lookup_insert_ne, lookup_insert_eq by done.
    split; [done|]. apply parse_print_doc.
  - eexists. rewrite lookup_insert_eq. split; [done|]. apply parse_print_doc.
Qed.

Lemma save_cleanup_load_roundtrip_witness :
  ∃ st',
    (saveAll (host := memoryHost);;; restart (host := memoryHost)) openStore
    = Returned tt st'
    ∧ folders st' = folders openStore
    ∧ sessionFolders st' = sessionFolders openStore.
Proof.
  destruct (save_cleanup_load_roundtrip (host := memoryHost) openStore
              memoryHost_lawful) as (st' & E & Hf & Hs & _).
  by exists st'.
Defined.

Lemma mutations_keep_persisted_witness :
  ∃ st', moveSessionToFolder (host := memoryHost) "s1" (Some "C") savedStore
         = Returned tt st'
         ∧ persisted (host := memoryHost) st'.
Proof.
  destruct (mutations_keep_persisted (host := memoryHost) savedStore
              memoryHost_lawful savedStore_persisted)
    as (_ & _ & _ & Hmove & _).
  destruct (moveSessionToFolder_model (host := memoryHost)
              "s1" (Some "C") savedStore) as (st' & E & _).
  exists st'. split; [exact E|]. by eapply Hmove.
Defined.

Lemma restart_restores_persisted_witness :
  ∃ st', restart (host := memoryHost) savedStore = Returned tt st'
         ∧ folders st' = sampleFolders.
Proof.
  destruct (restart_restores_persisted (host := memoryHost) savedStore
              memoryHost_lawful savedStore_persisted) as (st' & E & Hf & _).
  exists st'. split; [exact E|]. rewrite Hf. unfold savedStore.
  by rewrite (proj1 (after_saveSessionFolders_model _)),
    (proj1 (after_saveFolders_model _)).
Defined.

Lemma refused_update_outruns_storage_witness :
  ∃ st',
    updateFolder (host := memoryHost) 4 "A"
      (mkUpdates (Some "Renamed") None (Some (Some "B")) None) savedStore
    = Returned None st'
    ∧ ¬ persisted (host := memoryHost) st'.
Proof.
  assert (folders savedStore = sampleFolders) as Hfs.
  { unfold savedStore.
    by rewrite (proj1 (after_saveSessionFolders_model _)),
      (proj1 (after_saveFolders_model _)). }
  assert (list_find (λ f, id f = "A") (folders savedStore)
          = Some (0%nat, folderA)) as Efind by by rewrite Hfs.
  pose proof (updateFolder_found (host := memoryHost) 4 "A"
                (mkUpdates (Some "Renamed") None (Some (Some "B")) None)
                savedStore 0%nat folderA Efind) as E.
  rewrite Hfs in E.
  change (guard_refuses 4 sampleFolders "A"
            (mkUpdates (Some "Renamed") None (Some (Some "B")) None))
    with (Some true) in E.
  eexists. split; [exact E|].
  eapply (refused_update_outruns_storage (host := memoryHost) 4 "A" _
            savedStore 0%nat folderA).
  - exact savedStore_persisted.
  - exact Efind.
  - exact E.
  - discriminate.
Defined.

Lemma first_run_expands_all_witness :
  ∃ st', load (host := offlineHost) sampleStore = Returned tt st'
         ∧ expandedFolders st' = list_to_set (id <$> folders st').
Proof.
  apply (first_run_expands_all (host := offlineHost) sampleStore).
  - reflexivity.
  - exact I.
Defined.

Lemma created_folder_collapsed_after_restart_witness :
  ∃ f st1 st2,
    createFolder (host := memoryHost) "1700000000000" "k3x9q2m1z"
      "Logs" None None expandedStore = Returned f st1
    ∧ id f ∈ expandedFolders st1
    ∧ restart (host := memoryHost) st1 = Returned tt st2
    ∧ id f ∉ expandedFolders st2.
Proof.
  destruct (created_folder_collapsed_after_restart (host := memoryHost)
              "1700000000000" "k3x9q2m1z" "Logs" None None expandedStore
              (print_doc ["A"]) ["A"])
    as (f & st1 & st2 & E1 & _ & Hin & E2 & _ & Hout).
  - exact memoryHost_lawful.
  - reflexivity.
  - apply parse_print_doc.
  - discriminate.
  - intros Hin. apply list_elem_of_singleton in Hin. discriminate.
  - by exists f, st1, st2.
Defined.

(** ** More on the hierarchy *)

Section Hierarchy.
Context `{host : Host}.
Implicit Types (st : State) (fs : list Folder).

Lemma ids_insert_same fs i f f' :
  fs !! i = Some f → id f' = id f → id <$> <[i := f']> fs = id <$> fs.
Proof.
  intros Hi Hid. rewrite list_fmap_insert, Hid.
  apply list_insert_id. by rewrite list_lookup_fmap, Hi.
Qed.

Lemma ids_filter_sublist (P : Folder → Prop) `{∀ f, Decision (P f)} fs :
  (id <$> filter P fs) `sublist_of` (id <$> fs).
Proof.
  induction fs as [|f fs IH]; [done|]. rewrite filter_cons.
  destruct (decide (P f)); rewrite !fmap_cons.
  - by apply sublist_skip.
  - by apply sublist_cons.
Qed.

Lemma updateFolder_ids fuel fid u st r st' :
  updateFolder fuel fid u st = Returned r st' →
  id <$> folders st' = id <$> folders st.
Proof.
  intros E.
  destruct (list_find (λ f, id f = fid) (folders st)) as [[i f]|] eqn:Efind.
  2:{ rewrite (updateFolder_unknown _ _ _ _ Efind) in E. by injection E as _ <-. }
  rewrite (updateFolder_found _ _ _ _ _ _ Efind) in E.
  apply list_find_Some in Efind as (Hi & _ & _).
  destruct (guard_refuses fuel (folders st) fid u) as [[|]|]; [| |done];
    injection E as _ <-; rewrite ?folders_published; cbn;
    apply (ids_insert_same _ _ _ _ Hi).
  - apply apply_name_color_edges.
  - apply apply_updates_fields.
Qed.

Lemma step_keeps_unique_ids st st' :
  step st st' → unique_ids (folders st) → unique_ids (folders st').
Proof.
  unfold unique_ids.
  intros [now rnd nm col pid st0 f st1 (Hid & _ & _) E
         |fuel fid u st0 r st1 E
         |fuel fid st0 st1 E
         |s fo st0 st1 E] Hnd.
  - rewrite createFolder_eq in E. cbv zeta in E. injection E as _ <-.
    rewrite folders_published. cbn. rewrite fmap_app. cbn.
    apply NoDup_app. split; [done|]. split; [|apply NoDup_singleton].
    intros x Hx ->%list_elem_of_singleton. done.
  - by rewrite (updateFolder_ids _ _ _ _ _ _ E).
  - rewrite deleteFolder_eq in E.
    destruct (getDescendantFolderIds fuel (folders st0) fid); [|done].
    injection E as <-. rewrite folders_published. cbn.
    eapply sublist_NoDup; first [apply ids_filter_sublist | exact Hnd].
  - destruct (moveSessionToFolder_model s fo st0) as (st2 & E2 & Hfs & _).
    rewrite E in E2. injection E2 as <-. by rewrite Hfs.
Qed.

(** X11: ids stay unique: from a store in which no two folders share an
    id, every state reached by [createFolder] (with an id that occurs
    nowhere in the store), [updateFolder], [deleteFolder] and
    [moveSessionToFolder] has no two folders with the same id. *)
Theorem unique_ids_is_invariant st st' :
  unique_ids (folders st) → rtc step st st' → unique_ids (folders st').
Proof.
  intros Hnd Hsteps. induction Hsteps as [|st0 st1 st2 Hstep _ IH]; [done|].
  apply IH. by eapply step_keeps_unique_ids.
Qed.

Lemma mapM_app {A B} (g : A → option B) (l k : list A) :
  mapM g (l ++ k)
  = match mapM g l, mapM g k with
    | Some l', Some k' => Some (l' ++ k')
    | _, _ => None
    end.
Proof.
  induction l as [|a l IH]; cbn.
  - by destruct (mapM g k).
  - destruct (g a); cbn; [|done]. rewrite IH.
    by destruct (mapM g l), (mapM g k).
Qed.

Lemma childrenOf_unreferenced fs g :
  Some g ∉ (parentId <$> fs) → childrenOf fs g = [].
Proof.
  unfold childrenOf. induction fs as [|c l IHl]; [done|].
  rewrite fmap_cons, not_elem_of_cons. intros [Hc Hl].
  rewrite filter_cons, decide_False by congruence. by apply IHl.
Qed.

(** A new folder under [p] changes no enumeration that starts outside the
    chain from [p] up to its roots. *)
Lemma getDescendantFolderIds_frame k fs new p x :
  parentId new = Some p →
  x ≠ p →
  ¬ descendant fs p x →
  getDescendantFolderIds k (fs ++ [new]) x = getDescendantFolderIds k fs x.
Proof.
  intros Hp. revert x. induction k as [|k IH]; intros x Hx Hnd; [done|].
  rewrite !getDescendantFolderIds_S.
  assert (childrenOf (fs ++ [new]) x = childrenOf fs x) as ->.
  { unfold childrenOf. rewrite filter_app, filter_cons, filter_nil.
    rewrite decide_False by congruence. by rewrite app_nil_r. }
  f_equal. apply Forall_mapM_ext, Forall_forall.
  intros c [Hc Hpc]%elem_of_childrenOf. rewrite IH; [done|..].
  - intros Heq. apply Hnd, tc_once. exists c. by rewrite Heq.
  - intros Hd. apply Hnd. eapply tc_r; [exact Hd|]. by exists c.
Qed.

(** X12: a folder created under [p] comes last in [p]'s descendant
    enumeration, after everything the enumeration held before, and has no
    descendants of its own. *)
Theorem createFolder_extends_descendants now rnd nm col p st fuel ds :
  acyclic (folders st) →
  unused_id (fresh_folder_id now rnd) (Some p) (folders st) →
  getDescendantFolderIds fuel (folders st) p = Some ds →
  ∃ f st',
    createFolder now rnd nm col (Some p) st = Returned f st'
    ∧ getDescendantFolderIds (S fuel) (folders st') p = Some (ds ++ [id f])
    ∧ getDescendantFolderIds (S fuel) (folders st') (id f) = Some [].
Proof.
  intros Hac (_ & Hpar & Hpid) Hds.
  eexists _, _. rewrite createFolder_eq. cbv zeta.
  split; [done|]. rewrite folders_published. cbn [folders set_folders
    set_expandedFolders id].
  set (g := fresh_folder_id now rnd) in *.
  set (new := mkFolder g nm _ (Some p) _).
  assert (∀ k, getDescendantFolderIds (S k) (folders st ++ [new]) g = Some [])
    as Hleaf.
  { intros k. rewrite getDescendantFolderIds_S.
    assert (childrenOf (folders st ++ [new]) g = []) as ->; [|done].
    unfold childrenOf. rewrite filter_app, filter_cons, filter_nil.
    rewrite (decide_False (P := parentId new = Some g)) by done.
    rewrite app_nil_r. by apply childrenOf_unreferenced. }
  split; [|apply Hleaf].
  destruct fuel as [|k]; [done|].
  rewrite getDescendantFolderIds_S in Hds.
  destruct (mapM _ (childrenOf (folders st) p)) as [subs|] eqn:E; [|done].
  injection Hds as <-.
  rewrite getDescendantFolderIds_S.
  assert (childrenOf (folders st ++ [new]) p = childrenOf (folders st) p ++ [new])
    as ->.
  { unfold childrenOf. rewrite filter_app, filter_cons, filter_nil.
    by rewrite decide_True. }
  rewrite mapM_app.
  assert (mapM (λ c, (id c ::.)
                       <$> getDescendantFolderIds (S k) (folders st ++ [new])
                             (id c))
               (childrenOf (folders st) p) = Some subs) as ->.
  { rewrite <- E. apply Forall_mapM_ext, Forall_forall.
    intros c Hin. pose proof Hin as [Hc Hpc]%elem_of_childrenOf.
    apply mapM_Some in E.
    apply list_elem_of_lookup in Hin as [j Hj].
    destruct (Forall2_lookup_l _ _ _ _ _ E Hj) as (y & _ & Hy).
    cbv beta in *.
    rewrite (getDescendantFolderIds_frame _ _ new p); [|done|..].
    - destruct (getDescendantFolderIds k (folders st) (id c)) as [sub|] eqn:Ec;
        [|done].
      by rewrite (getDescendantFolderIds_fuel_S _ _ _ _ Ec).
    - intros Heq. apply (Hac p), tc_once. exists c. by rewrite Heq.
    - intros Hd. apply (Hac p). eapply tc_r; [exact Hd|]. by exists c. }
  assert (mapM (λ c, (id c ::.)
                       <$> getDescendantFolderIds (S k) (folders st ++ [new])
                             (id c))
               [new] = Some [[g]]) as ->.
  { apply mapM_Some. constructor; [|constructor]. cbv beta.
    change (id new) with g. by rewrite (Hleaf k). }
  cbn [fmap option_fmap option_map]. by rewrite join_app.
Qed.

(** X13: after a session is moved into a folder, or into any folder below
    it, and that folder is deleted, the store holds no assignment for the
    session; [getSessionFolder] then returns [null] for it, unless its id
    names a member of [Object.prototype]. *)
Theorem move_then_delete_unassigns s (v : string) fid fuel st :
  acyclic (folders st) →
  (length (folders st) < fuel)%nat →
  v = fid ∨ descendant (folders st) v fid →
  ∃ st1 st2,
    moveSessionToFolder s (Some v) st = Returned tt st1
    ∧ deleteFolder fuel fid st1 = Returned tt st2
    ∧ sessionFolders st2 !! s = None
    ∧ (s ∉ object_prototype_names → getSessionFolder st2 s = None).
Proof.
  intros Hac Hlt Hv.
  destruct (moveSessionToFolder_model s (Some v) st)
    as (st1 & E1 & Hfs & _ & Hsf).
  exists st1. rewrite <- Hfs in Hac, Hlt, Hv.
  destruct (acyclic_returns _ fid fuel Hac Hlt) as [ds Hds].
  eexists. split; [exact E1|]. rewrite deleteFolder_eq, Hds.
  split; [done|].
  match goal with
  | |- ?own = None ∧ _ => assert (own = None) as Hown
  end.
  { rewrite sessionFolders_published. cbn [sessionFolders set_folders].
    rewrite (proj1 (proj2 (after_saveSessionFolders_model _))).
    cbn [sessionFolders set_sessionFolders].
    apply eq_None_not_Some. intros [w Hw].
    apply map_lookup_filter_Some in Hw as [Hw Hnot]. cbn in Hnot.
    rewrite Hsf in Hw. destruct (truthy v) eqn:Htr.
    - unfold js_set in Hw. case_bool_decide as Hdrop.
      + destruct Hdrop as [_ Hnone]. congruence.
      + rewrite lookup_insert_eq in Hw. injection Hw as <-.
        apply Hnot. destruct Hv as [->|Hd]; [apply list_elem_of_here|].
        apply list_elem_of_further.
        by apply (elem_of_getDescendantFolderIds _ _ _ _ _ Hds).
    - unfold js_delete in Hw. by rewrite lookup_delete_eq in Hw. }
  split; [exact Hown|]. intros Hs. unfold getSessionFolder.
  by rewrite (js_get_plain _ _ Hs), Hown.
Qed.

Lemma bounded_height_no_cycle fs k x y :
  bounded_height fs k x →
  y = x ∨ descendant fs y x →
  ¬ descendant fs y y.
Proof.
  intros Hb. revert y. induction Hb as [k x Hkids IH]. intros y Hy Hcyc.
  assert (∃ c, is_child fs c x ∧ (y = c ∨ descendant fs y c))
    as (c & (f & Hf & <- & Hp) & Hyc).
  { destruct Hy as [->|Hy].
    - destruct (descendant_inv_r _ _ _ Hcyc) as [?|(c & ? & ?)]; eauto.
    - destruct (descendant_inv_r _ _ _ Hy) as [?|(c & ? & ?)]; eauto. }
  by eapply (IH f Hf Hp y).
Qed.

Lemma cycle_never_returns fs x y fuel :
  y = x ∨ descendant fs y x →
  descendant fs y y →
  getDescendantFolderIds fuel fs x = None.
Proof.
  intros Hy Hcyc.
  destruct (getDescendantFolderIds fuel fs x) as [ds|] eqn:E; [|done].
  exfalso. eapply bounded_height_no_cycle; [|exact Hy|exact Hcyc].
  by eapply returns_bounded_height.
Qed.

(** X14: where the parent links run in a circle, the enumeration does not
    return: started on the circle or anywhere above it, it runs out of any
    recursion depth, and so does [deleteFolder]. *)
Theorem getDescendantFolderIds_diverges_on_cycle fs x y fuel :
  y = x ∨ descendant fs y x →
  descendant fs y y →
  getDescendantFolderIds fuel fs x = None
  ∧ ∀ st, folders st = fs → deleteFolder fuel x st = Diverged.
Proof.
  intros Hy Hcyc. split; [by eapply cycle_never_returns|].
  intros st <-. rewrite deleteFolder_eq.
  by rewrite (cycle_never_returns _ _ _ fuel Hy Hcyc).
Qed.

Lemma legacy_updateFolder_found fid u st i f :
  list_find (λ f, id f = fid) (folders st) = Some (i, f) →
  Legacy.updateFolder fid u st
  = Returned (Some (apply_updates u f))
      (emit RenderList
         (after_saveFolders
            (set_folders (<[i := apply_updates u f]> (folders st)) st))).
Proof.
  intros E. pose proof E as (Hi & _ & _)%list_find_Some.
  assert (i < length (folders st))%nat as Hlt by by eapply lookup_lt_Some.
  unfold Legacy.updateFolder. unfold bind at 1, get_state at 1. rewrite E.
  unfold bind at 1. rewrite when_present_assign.
  unfold bind at 1. rewrite when_present_assign.
  unfold bind at 1. rewrite when_present_assign.
  unfold bind at 1. rewrite when_present_assign.
  unfold bind at 1. rewrite saveFolders_eq.
  unfold bind, modify, get_state, ret. cbn [folders set_folders].
  rewrite !list_alter_alter_eq, !set_folders_set_folders.
  rewrite (alter_as_insert _ _ _ _ Hi).
  change ((opt_apply with_order (upd_order u)
           ∘ opt_apply with_parentId (upd_parentId u)
           ∘ opt_apply with_color (upd_color u)
           ∘ opt_apply with_name (upd_name u)) f)
    with (apply_updates u f).
  change (folders (emit RenderList ?s)) with (folders s).
  rewrite (proj1 (after_saveFolders_model _)). cbn [folders set_folders].
  by rewrite list_lookup_insert_eq.
Qed.

(** X15: the earlier revision (index.js) takes any parent: asked to make a
    known folder its own parent it does so, and from then on the descendant
    enumeration for that folder, and with it [deleteFolder], never
    returns. *)
Theorem legacy_self_parent_breaks_enumeration fid st i f :
  list_find (λ f, id f = fid) (folders st) = Some (i, f) →
  ∃ st',
    Legacy.updateFolder fid (reparent (Some fid)) st
    = Returned (Some (with_parentId (Some fid) f)) st'
    ∧ descendant (folders st') fid fid
    ∧ (∀ fuel, getDescendantFolderIds fuel (folders st') fid = None)
    ∧ (∀ fuel, deleteFolder fuel fid st' = Diverged).
Proof.
  intros E. pose proof E as (Hi & Hid & _)%list_find_Some.
  eexists. rewrite (legacy_updateFolder_found _ _ _ _ _ E).
  split; [done|]. cbn [folders emit].
  rewrite (proj1 (after_saveFolders_model _)). cbn [folders set_folders].
  assert (descendant (<[i := apply_updates (reparent (Some fid)) f]> (folders st))
            fid fid) as Hcyc.
  { apply tc_once. exists (with_parentId (Some fid) f). split; [|done].
    eapply list_elem_of_lookup_2. apply list_lookup_insert_eq.
    by eapply lookup_lt_Some. }
  split; [done|].
  assert (∀ fuel, getDescendantFolderIds fuel
            (<[i := apply_updates (reparent (Some fid)) f]> (folders st)) fid
          = None) as Hnone.
  { intros fuel.
    apply (cycle_never_returns _ fid fid); [by left|done]. }
  split; [done|]. intros fuel. rewrite deleteFolder_eq. cbn [folders emit].
  rewrite (proj1 (after_saveFolders_model _)). cbn [folders set_folders].
  by rewrite Hnone.
Qed.

End Hierarchy.

Lemma sampleFolders_unique_ids : unique_ids sampleFolders.
Proof. unfold unique_ids. by apply (bool_decide_unpack _). Qed.

Lemma unique_ids_is_invariant_witness :
  ∃ st', rtc (step (host := offlineHost)) sampleStore st'
         ∧ unique_ids (folders st').
Proof.
  destruct (moveSessionToFolder_model (host := offlineHost)
              "s1" (Some "C") sampleStore) as (st' & E & _).
  assert (rtc (step (host := offlineHost)) sampleStore st') as Hsteps.
  { apply rtc_once. eapply step_moveSessionToFolder. exact E. }
  exists st'. split; [exact Hsteps|].
  apply (unique_ids_is_invariant (host := offlineHost) sampleStore st').
  - unfold unique_ids. by apply (bool_decide_unpack _).
  - exact Hsteps.
Defined.

Lemma createFolder_extends_descendants_witness :
  ∃ f st',
    createFolder (host := offlineHost) "1700000000000" "k3x9q2m1z" "Logs"
      None (Some "A") sampleStore = Returned f st'
    ∧ getDescendantFolderIds 5 (folders st') "A" = Some ["B"; id f].
Proof.
  destruct (createFolder_extends_descendants (host := offlineHost)
              "1700000000000" "k3x9q2m1z" "Logs" None "A" sampleStore 4 ["B"])
    as (f & st' & E & Hds & _).
  - apply acyclicb_sound. reflexivity.
  - split; [|split]; [by apply (bool_decide_unpack _)..|done].
  - reflexivity.
  - by exists f, st'.
Defined.

Lemma move_then_delete_unassigns_witness :
  ∃ st1 st2,
    moveSessionToFolder (host := offlineHost) "s9" (Some "B") sampleStore
    = Returned tt st1
    ∧ deleteFolder (host := offlineHost) 4 "A" st1 = Returned tt st2
    ∧ getSessionFolder st2 "s9" = None.
Proof.
  destruct (move_then_delete_unassigns (host := offlineHost)
              "s9" "B" "A" 4 sampleStore) as (st1 & st2 & E1 & E2 & _ & Hget).
  - apply acyclicb_sound. reflexivity.
  - simpl. lia.
  - right. apply tc_once. exists folderB.
    split; [|done]. apply list_elem_of_further, list_elem_of_here.
  - exists st1, st2. split; [exact E1|]. split; [exact E2|].
    apply Hget. by apply (bool_decide_unpack _).
Defined.

Lemma getDescendantFolderIds_diverges_on_cycle_witness :
  getDescendantFolderIds 1000
    [with_parentId (Some "B") folderA; folderB] "A" = None.
Proof.
  apply (getDescendantFolderIds_diverges_on_cycle (host := offlineHost)
           [with_parentId (Some "B") folderA; folderB] "A" "A" 1000).
  - by left.
  - eapply tc_l; [|apply tc_once].
    + exists (with_parentId (Some "B") folderA).
      split; [apply list_elem_of_here|done].
    + exists folderB.
      split; [apply list_elem_of_further, list_elem_of_here|done].
Defined.

Lemma legacy_self_parent_breaks_enumeration_witness :
  ∃ st',
    Legacy.updateFolder (host := offlineHost) "A" (reparent (Some "A"))
      sampleStore
    = Returned (Some (with_parentId (Some "A") folderA)) st'
    ∧ getDescendantFolderIds 1000 (folders st') "A" = None.
Proof.
  destruct (legacy_self_parent_breaks_enumeration (host := offlineHost)
              "A" sampleStore 0%nat folderA eq_refl)
    as (st' & E & _ & Hnone & _).
  exists st'. split; [exact E|apply Hnone].
Defined.

(** ** What the delete dialog announces *)

Section Counting.
Context `{host : Host}.
Implicit Types (st : State) (fs : list Folder).

Lemma unique_ids_same_folder fs f g :
  unique_ids fs → f ∈ fs → g ∈ fs → id f = id g → f = g.
Proof.
  intros Hnd [i Hi]%list_elem_of_lookup [j Hj]%list_elem_of_lookup Hid.
  assert (i = j) as ->; [|congruence].
  eapply (NoDup_lookup _ _ _ (id f) Hnd).
  - by rewrite list_lookup_fmap, Hi.
  - by rewrite list_lookup_fmap, Hj, Hid.
Qed.

Lemma is_child_functional fs c p q :
  unique_ids fs → is_child fs c p → is_child fs c q → p = q.
Proof.
  intros Hnd (f & Hf & Hc & Hp) (g & Hg & Hc' & Hq).
  assert (f = g) as ->; [|congruence].
  apply (unique_ids_same_folder fs); [done..|congruence].
Qed.

Lemma descendant_inv_l fs d a :
  descendant fs d a →
  ∃ q, is_child fs d q ∧ (q = a ∨ descendant fs q a).
Proof. destruct 1 as [d a H|d q a H Hqa]; eauto. Qed.

(** With unique ids the way up from a folder is a single chain. *)
Lemma descendant_chain fs d a b :
  unique_ids fs →
  descendant fs d a → descendant fs d b →
  a = b ∨ descendant fs a b ∨ descendant fs b a.
Proof.
  intros Hnd Ha. revert b.
  induction Ha as [d a Hda|d m a Hdm Hma IH]; intros b Hb.
  - destruct (descendant_inv_l _ _ _ Hb) as (q & Hdq & Hq).
    rewrite (is_child_functional _ _ _ _ Hnd Hda Hdq).
    destruct Hq as [->|Hq]; [by left|by right; left].
  - destruct (descendant_inv_l _ _ _ Hb) as (q & Hdq & Hq).
    rewrite <- (is_child_functional _ _ _ _ Hnd Hdm Hdq) in Hq.
    destruct Hq as [<-|Hq]; [by right; right|]. by apply IH.
Qed.

Lemma siblings_incomparable fs x c c' :
  unique_ids fs → acyclic fs →
  is_child fs c x → is_child fs c' x →
  ¬ descendant fs c c'.
Proof.
  intros Hnd Hac Hc Hc' Hd.
  destruct (descendant_inv_l _ _ _ Hd) as (q & Hcq & Hq).
  rewrite <- (is_child_functional _ _ _ _ Hnd Hc Hcq) in Hq.
  apply (Hac x). destruct Hq as [->|Hq]; [by apply tc_once|].
  by eapply tc_r.
Qed.

Lemma NoDup_getDescendantFolderIds k fs x ds :
  unique_ids fs → acyclic fs →
  getDescendantFolderIds k fs x = Some ds → NoDup ds.
Proof.
  intros Hnd Hac. revert x ds. induction k as [|k IH]; intros x ds; [done|].
  rewrite getDescendantFolderIds_S.
  destruct (mapM _ (childrenOf fs x)) as [subs|] eqn:E; [|done].
  intros [= <-]. apply mapM_Some in E.
  assert (NoDup (id <$> childrenOf fs x)) as Hcs.
  { eapply sublist_NoDup; first [apply ids_filter_sublist | exact Hnd]. }
  assert (∀ c, c ∈ childrenOf fs x → is_child fs (id c) x) as Hchild.
  { intros c [Hc Hp]%elem_of_childrenOf. by exists c. }
  induction E as [|c y cs ys Hy E IHE]; [constructor|].
  rewrite fmap_cons in Hcs. apply NoDup_cons in Hcs as [Hc Hcs].
  destruct (getDescendantFolderIds k fs (id c)) as [sub|] eqn:Ec; [|done].
  injection Hy as <-.
  assert (∀ d, d ∈ id c :: sub → d = id c ∨ descendant fs d (id c)) as Hsub.
  { intros d [->|Hd]%elem_of_cons; [by left|right].
    by apply (elem_of_getDescendantFolderIds _ _ _ _ _ Ec). }
  change (mjoin ((id c :: sub) :: ys)) with ((id c :: sub) ++ mjoin ys).
  apply NoDup_app. split; [|split].
  - apply NoDup_cons. split; [|by eapply IH].
    intros Hin. apply (Hac (id c)).
    by apply (elem_of_getDescendantFolderIds _ _ _ _ _ Ec).
  - intros d Hd (y' & Hdy' & Hy')%list_elem_of_join.
    apply list_elem_of_lookup in Hy' as [j Hj].
    destruct (Forall2_lookup_r _ _ _ _ _ E Hj) as (c' & Hc' & Hyc').
    apply list_elem_of_lookup_2 in Hc'.
    destruct (getDescendantFolderIds k fs (id c')) as [sub'|] eqn:Ec'; [|done].
    injection Hyc' as <-.
    assert (id c ≠ id c') as Hne.
    { intros Heq. apply Hc. rewrite Heq. by apply list_elem_of_fmap_2. }
    assert (is_child fs (id c) x) as Hcx by (apply Hchild, list_elem_of_here).
    assert (is_child fs (id c') x) as Hcx'
      by by apply Hchild, list_elem_of_further.
    assert (d = id c' ∨ descendant fs d (id c')) as Hd'.
    { apply elem_of_cons in Hdy' as [->|Hd']; [by left|right].
      by apply (elem_of_getDescendantFolderIds _ _ _ _ _ Ec'). }
    destruct (Hsub d Hd) as [->|Hdc], Hd' as [Heq|Hdc'].
    + done.
    + by apply (siblings_incomparable fs x (id c) (id c')).
    + subst d. by apply (siblings_incomparable fs x (id c') (id c)).
    + destruct (descendant_chain _ _ _ _ Hnd Hdc Hdc') as [?|[?|?]]; [done|..].
      * by apply (siblings_incomparable fs x (id c) (id c')).
      * by apply (siblings_incomparable fs x (id c') (id c)).
  - apply IHE; [done|]. intros c' Hc'. by apply Hchild, list_elem_of_further.
Qed.

(** X16: with unique ids on an acyclic forest, deleting a folder that is
    there removes that folder and exactly as many more as the dialog's
    sub-folder count, the length of its descendant enumeration. *)
Theorem deleteFolder_removes_announced_count fuel fid st :
  unique_ids (folders st) →
  acyclic (folders st) →
  fid ∈ (id <$> folders st) →
  (length (folders st) < fuel)%nat →
  ∃ ds st',
    getDescendantFolderIds fuel (folders st) fid = Some ds
    ∧ deleteFolder fuel fid st = Returned tt st'
    ∧ (length (folders st') + 1 + length ds = length (folders st))%nat.
Proof.
  intros Hnd Hac Hfid Hlt.
  destruct (acyclic_returns _ fid fuel Hac Hlt) as [ds Hds].
  exists ds. eexists. split; [done|]. rewrite deleteFolder_eq, Hds.
  split; [done|]. rewrite folders_published. cbn [folders set_folders].
  pose proof (λ d, elem_of_getDescendantFolderIds _ _ _ _ d Hds) as Hmem.
  assert (NoDup (fid :: ds)) as Hall.
  { apply NoDup_cons. split; [|by eapply NoDup_getDescendantFolderIds].
    intros Hin%Hmem. by apply (Hac fid). }
  assert (∀ a, a ∈ fid :: ds → a ∈ id <$> folders st) as Hsub.
  { intros a [->|Ha]%elem_of_cons; [done|].
    apply Hmem, descendant_first in Ha as (p & f & Hf & <- & _).
    by apply list_elem_of_fmap_2. }
  assert (id <$> filter (λ f, ¬ (id f ∉ fid :: ds)) (folders st) ≡ₚ fid :: ds)
    as Hperm.
  { apply NoDup_Permutation; [|done|].
    - eapply sublist_NoDup; first [apply ids_filter_sublist | exact Hnd].
    - intros a. rewrite list_elem_of_fmap. split.
      + intros (f & -> & [Hin _]%list_elem_of_filter).
        by apply dec_stable.
      + intros Ha. destruct (proj1 (list_elem_of_fmap _ _ _) (Hsub a Ha))
          as (f & -> & Hf).
        exists f. split; [done|]. apply list_elem_of_filter. split; [|done].
        by intros Hnot. }
  pose proof (filter_app_complement (λ f, id f ∉ fid :: ds) (folders st))
    as Hsplit.
  apply Permutation_length in Hsplit, Hperm.
  rewrite length_app in Hsplit. rewrite length_fmap in Hperm. cbn in Hperm.
  lia.
Qed.

Lemma map_to_list_filter_perm (P : string * string → Prop)
    `{∀ x, Decision (P x)} (m : gmap string string) :
  map_to_list (filter P m) ≡ₚ filter P (map_to_list m).
Proof.
  apply NoDup_Permutation.
  - apply NoDup_map_to_list.
  - apply NoDup_filter, NoDup_map_to_list.
  - intros [k v]. rewrite list_elem_of_filter, !elem_of_map_to_list.
    rewrite map_lookup_filter_Some. tauto.
Qed.

Lemma sessionCountOf_size st fid :
  sessionCountOf st fid
  = size (filter (λ kv : string * string, kv.2 = fid) (sessionFolders st)).
Proof.
  unfold sessionCountOf.
  rewrite <- length_map_to_list, map_to_list_filter_perm.
  induction (map_to_list (sessionFolders st)) as [|[k v] l IH]; [done|].
  rewrite fmap_cons, !filter_cons. cbn.
  destruct (decide (v = fid)); cbn; by rewrite IH.
Qed.

(** X17: the dialog's session count is a lower bound on what
    [deleteFolder] unassigns: at least that many assignments go, and one
    more for every session that sits in a sub-folder. *)
Theorem deleteFolder_unassigns_at_least_announced fuel fid st st' :
  deleteFolder fuel fid st = Returned tt st' →
  (sessionCountOf st fid + size (sessionFolders st')
   ≤ size (sessionFolders st))%nat
  ∧ (∀ s v, sessionFolders st !! s = Some v →
            descendant (folders st) v fid → v ≠ fid →
            (sessionCountOf st fid + size (sessionFolders st')
             < size (sessionFolders st))%nat).
Proof.
  rewrite deleteFolder_eq.
  destruct (getDescendantFolderIds fuel (folders st) fid) as [ds|] eqn:Hds;
    [|done].
  intros [= <-]. rewrite sessionFolders_published.
  cbn [sessionFolders set_folders].
  rewrite (proj1 (proj2 (after_saveSessionFolders_model _))).
  cbn [sessionFolders set_sessionFolders].
  set (sf := sessionFolders st).
  set (P := λ kv : string * string, kv.2 ∉ fid :: ds).
  assert (size sf = (size (filter P sf) + size (filter (λ kv, ¬ P kv) sf))%nat)
    as Hsize.
  { rewrite <- map_size_disj_union
      by apply map_disjoint_filter_complement.
    by rewrite map_filter_union_complement. }
  rewrite sessionCountOf_size. fold sf. split.
  - assert (filter (λ kv : string * string, kv.2 = fid) sf
            ⊆ filter (λ kv, ¬ P kv) sf) as Hle%map_subseteq_size; [|lia].
    apply map_filter_subseteq_ext. intros s v _ Hv HP. cbn in Hv. subst v.
    apply HP, list_elem_of_here.
  - intros s v Hsv Hd Hne.
    assert (filter (λ kv : string * string, kv.2 = fid) sf
            ⊆ delete s (filter (λ kv, ¬ P kv) sf)) as Hle%map_subseteq_size.
    { apply map_subseteq_spec. intros s' v'.
      rewrite map_lookup_filter_Some. cbn. intros [Hs' ->].
      assert (s' ≠ s) by (intros ->; congruence).
      rewrite lookup_delete_ne by done. apply map_lookup_filter_Some.
      split; [done|]. intros HP. apply HP, list_elem_of_here. }
    rewrite map_size_delete_Some in Hle.
    + assert (size (filter (λ kv, ¬ P kv) sf) ≠ 0)%nat; [|lia].
      apply map_size_ne_0_lookup_2 with s. exists v.
      apply map_lookup_filter_Some. split; [done|]. intros HP. apply HP.
      apply list_elem_of_further.
      by apply (elem_of_getDescendantFolderIds _ _ _ _ _ Hds).
    + exists v. apply map_lookup_filter_Some. split; [done|].
      intros HP. apply HP, list_elem_of_further.
      by apply (elem_of_getDescendantFolderIds _ _ _ _ _ Hds).
Qed.

End Counting.

(** ** The two views and the prompts *)

Section Views.
Implicit Types (st : State) (sessions : list Session) (n : RenderNode).

Lemma item_sessions_unfold f d e h c kids ss :
  item_sessions (FolderItem f d e h c kids ss)
  = ss ++ flat_map item_sessions kids.
Proof. reflexivity. Qed.

Lemma elem_of_flat_map {A B} (f : A → list B) (l : list A) (y : B) :
  y ∈ flat_map f l ↔ ∃ x, x ∈ l ∧ y ∈ f x.
Proof.
  rewrite list_elem_of_In, in_flat_map. split.
  - intros (x & Hx & Hy). exists x. by rewrite !list_elem_of_In.
  - intros (x & Hx & Hy). exists x. by rewrite <- !list_elem_of_In.
Qed.

Lemma renderFolderItem_sessions fuel st sessions folder depth n s :
  renderFolderItem fuel st sessions folder depth = Some n →
  folder ∈ folders st →
  s ∈ item_sessions n →
  s ∈ sessions
  ∧ ∃ f, f ∈ folders st ∧ sessionFolders st !! sid s = Some (id f).
Proof.
  revert folder depth n. induction fuel as [|k IH]; intros folder depth n;
    [done|].
  rewrite renderFolderItem_S. cbv zeta.
  destruct (_ && _); [|intros [= <-] _; cbn; by intros ?%elem_of_nil].
  destruct (mapM _ _) as [kids|] eqn:E; [|done]. intros [= <-] Hfolder.
  rewrite item_sessions_unfold, elem_of_app.
  intros [[Hsf%js_get_string Hs]%list_elem_of_filter
         |(kid & Hkid & Hs)%elem_of_flat_map].
  - split; [done|]. by exists folder.
  - apply mapM_Some in E. apply list_elem_of_lookup in Hkid as [j Hj].
    destruct (Forall2_lookup_r _ _ _ _ _ E Hj) as (child & Hchild & Hr).
    apply list_elem_of_lookup_2 in Hchild.
    rewrite js_sort_perm in Hchild.
    apply elem_of_childrenOf in Hchild as [Hchild _]. by eapply IH.
Qed.

Lemma rootFolders_subset st f : f ∈ rootFolders st → f ∈ folders st.
Proof.
  unfold rootFolders. rewrite js_sort_perm.
  by intros [_ ?]%list_elem_of_filter.
Qed.

Lemma renderList_items fuel st sessions v :
  renderList fuel st sessions = Some v →
  folders st ≠ [] →
  Forall2 (λ folder item,
             renderFolderItem fuel st sessions folder 0 = Some item)
          (rootFolders st) (items v).
Proof.
  unfold renderList. rewrite for_of_items.
  destruct (mapM _ (rootFolders st)) as [html|] eqn:E; [|done]. cbn.
  case_bool_decide as Hlen; [by apply nil_length_inv in Hlen|].
  intros [= <-] _. cbn. by apply mapM_Some in E.
Qed.

(** X20: the sidebar shows only sessions the host lists; one under a
    folder is assigned to a folder of the list, one under Uncategorized
    reads as having no folder.  So a session assigned to an id that no
    folder carries is shown nowhere, and neither is an unassigned session
    whose id names a member of [Object.prototype]. *)
Theorem renderList_hides_dangling_assignments fuel st sessions v :
  renderList fuel st sessions = Some v →
  (∀ s, s ∈ view_sessions v →
        s ∈ sessions
        ∧ (js_truthy (js_get (sessionFolders st) (sid s)) = false
           ∨ ∃ f, f ∈ folders st
                  ∧ sessionFolders st !! sid s = Some (id f)))
  ∧ (∀ s fid, sessionFolders st !! sid s = Some fid →
              truthy fid = true → fid ∉ id <$> folders st →
              s ∉ view_sessions v)
  ∧ (∀ s, sid s ∈ object_prototype_names →
          sessionFolders st !! sid s = None →
          s ∉ view_sessions v).
Proof.
  intros Hv.
  assert (∀ s, s ∈ view_sessions v →
        s ∈ sessions
        ∧ (js_truthy (js_get (sessionFolders st) (sid s)) = false
           ∨ ∃ f, f ∈ folders st
                  ∧ sessionFolders st !! sid s = Some (id f))) as Hshown.
  { intros s. unfold view_sessions. rewrite elem_of_app.
    destruct (decide (folders st = [])) as [Hnil|Hne].
    - revert Hv. unfold renderList. rewrite for_of_items, Hnil.
      destruct (mapM _ _); [|done]. cbn. intros [= <-]. cbn.
      by intros [?%elem_of_nil|?%elem_of_nil].
    - pose proof (renderList_items _ _ _ _ Hv Hne) as Hitems.
      intros [(item & Hitem & Hs)%elem_of_flat_map|Hs].
      + apply list_elem_of_lookup in Hitem as [j Hj].
        destruct (Forall2_lookup_r _ _ _ _ _ Hitems Hj)
          as (folder & Hfolder & Hr).
        apply list_elem_of_lookup_2, rootFolders_subset in Hfolder.
        destruct (renderFolderItem_sessions _ _ _ _ _ _ _ Hr Hfolder Hs)
          as [? ?]. by split; [|right].
      + revert Hv Hs. unfold renderList. rewrite for_of_items.
        destruct (mapM _ _); [|done]. cbn.
        case_bool_decide; [by intros [= <-] ?%elem_of_nil|].
        case_bool_decide; intros [= <-]; cbn; [|by intros ?%elem_of_nil].
        intros [? ?]%list_elem_of_filter. by split; [|left]. }
  split; [exact Hshown|]. split.
  - intros s fid Hs Hfid Hnot Hin.
    destruct (Hshown s Hin) as [_ [Hnone|(f & Hf & Hsf)]].
    + rewrite (proj2 (js_get_string _ _ _) Hs) in Hnone. cbn in Hnone.
      congruence.
    + apply Hnot. rewrite Hs in Hsf. injection Hsf as ->.
      by apply list_elem_of_fmap_2.
  - intros s Hname Hown Hin.
    destruct (Hshown s Hin) as [_ [Hnone|(f & Hf & Hsf)]]; [|congruence].
    by rewrite (js_get_inherited _ _ Hname Hown) in Hnone.
Qed.

Lemma renderFolderItem_count fuel st sessions folder depth n :
  renderFolderItem fuel st sessions folder depth = Some n →
  item_count n = length (sessionsIn st sessions (id folder)).
Proof.
  destruct fuel as [|k]; [done|]. rewrite renderFolderItem_S. cbv zeta.
  destruct (_ && _); [|by intros [= <-]].
  destruct (mapM _ _); [|done]. by intros [= <-].
Qed.

Lemma sessionsIn_assignments st sessions fid :
  NoDup (sid <$> sessions) →
  ((λ s, (sid s, fid)) <$> sessionsIn st sessions fid)
  ⊆+ map_to_list (filter (λ kv : string * string, kv.2 = fid)
                         (sessionFolders st)).
Proof.
  intros Hnd. apply NoDup_submseteq.
  - apply (NoDup_fmap_1 fst). rewrite <- list_fmap_compose.
    apply (sublist_NoDup _ (sid <$> sessions)); [exact Hnd|].
    apply (fmap_sublist sid), sublist_filter.
  - intros [k v] (s & [= -> ->] & [Hs%js_get_string _]%list_elem_of_filter)
                   %list_elem_of_fmap.
    apply elem_of_map_to_list, map_lookup_filter_Some. by split.
Qed.

Lemma sessionsIn_le_sessionCountOf st sessions fid :
  NoDup (sid <$> sessions) →
  (length (sessionsIn st sessions fid) ≤ sessionCountOf st fid)%nat.
Proof.
  intros Hnd%(sessionsIn_assignments st sessions fid)%submseteq_length.
  by rewrite length_fmap, length_map_to_list, <- sessionCountOf_size in Hnd.
Qed.

Lemma sessionsIn_eq_sessionCountOf st sessions fid :
  NoDup (sid <$> sessions) →
  (∀ k, is_Some (sessionFolders st !! k) → k ∈ sid <$> sessions) →
  length (sessionsIn st sessions fid) = sessionCountOf st fid.
Proof.
  intros Hnd Hlive.
  rewrite sessionCountOf_size, <- length_map_to_list.
  rewrite <- (length_fmap (λ s, (sid s, fid))).
  apply Permutation_length, submseteq_length_Permutation.
  { by apply sessionsIn_assignments. }
  apply submseteq_length, NoDup_submseteq; [apply NoDup_map_to_list|].
  intros [k v] [Hk Hv]%elem_of_map_to_list%map_lookup_filter_Some.
  cbn in Hv. subst v.
  destruct (proj1 (list_elem_of_fmap _ _ _) (Hlive k (mk_is_Some _ _ Hk)))
    as (s & -> & Hs).
  apply list_elem_of_fmap. exists s. split; [done|].
  apply list_elem_of_filter. split; [by apply js_get_string|done].
Qed.

(** X21: the home panel's tabs are the sidebar's root folders in the same
    sequence.  With session ids distinct, a tab's count is never below the
    badge of the sidebar item, since it counts assignments and the badge
    counts listed sessions; they agree once every assigned session is
    listed by the host. *)
Theorem home_tabs_follow_sidebar_roots fuel st sessions active v :
  renderList fuel st sessions = Some v →
  folders st ≠ [] →
  NoDup (sid <$> sessions) →
  Forall2 (λ tab item,
             tab_folder tab = item_folder item
             ∧ (item_count item ≤ tab_count tab)%nat)
          (tabs (renderHomeFolders st sessions active)) (items v)
  ∧ ((∀ k, is_Some (sessionFolders st !! k) → k ∈ sid <$> sessions) →
     tab_count <$> tabs (renderHomeFolders st sessions active)
     = item_count <$> items v).
Proof.
  intros Hv Hne Hnd. pose proof (renderList_items _ _ _ _ Hv Hne) as Hitems.
  cbn [tabs renderHomeFolders]. split.
  - apply Forall2_fmap_l. eapply Forall2_impl; [exact Hitems|].
    intros folder item Hr. cbn in Hr |- *. split.
    + symmetry. by eapply renderFolderItem_folder.
    + rewrite (renderFolderItem_count _ _ _ _ _ _ Hr).
      by apply sessionsIn_le_sessionCountOf.
  - intros Hlive. rewrite <- list_fmap_compose.
    induction Hitems as [|folder item l k Hr _ IH]; [done|].
    rewrite !fmap_cons, IH. f_equal. cbn.
    rewrite (renderFolderItem_count _ _ _ _ _ _ Hr).
    symmetry. by apply sessionsIn_eq_sessionCountOf.
Qed.

(** X22: choosing a tab filters the home panel to exactly the sessions
    assigned to that folder, each once, and as many as the tab's count
    says; a folder id that is empty filters nothing. *)
Theorem dispatchFolderFilter_selects_assigned st fid nm :
  truthy fid = true →
  (dispatchFolderFilter st (Some fid) nm).1 = Some fid
  ∧ ∃ ids,
      detail_sessionIds (dispatchFolderFilter st (Some fid) nm).2 = Some ids
      ∧ NoDup ids
      ∧ length ids = sessionCountOf st fid
      ∧ (∀ s, s ∈ ids ↔ getSessionFolder st s = Some (VString fid))
      ∧ detail_sessionIds (dispatchFolderFilter st (Some "") nm).2 = None.
Proof.
  intros Hfid. split; [done|]. exists (sessionIdsOf st fid).
  cbn. rewrite Hfid. split; [done|]. unfold sessionIdsOf.
  rewrite <- map_to_list_filter_perm. split; [|split; [|split; [|done]]].
  - apply NoDup_fst_map_to_list.
  - by rewrite length_fmap, length_map_to_list, sessionCountOf_size.
  - intros s. rewrite getSessionFolder_string, list_elem_of_fmap. split.
    + intros ([k v] & -> & [Hv Hk%elem_of_map_to_list]%list_elem_of_filter).
      cbn in *. subst v. by split; [|apply truthy_true].
    + intros [Hs _]. exists (s, fid).
      split; [done|]. apply list_elem_of_filter.
      by split; [|apply elem_of_map_to_list].
Qed.

End Views.

Section Prompts.
Context `{host : Host}.
Implicit Types (st : State).

(** X18: a click on a delete button on an acyclic forest returns, and
    leaves the store as it was unless the dialog, shown with the folder and
    the two counts of that moment, answered yes; then the store is the one
    [deleteFolder] leaves.  A dialog that always answers yes makes the
    click on a folder of the list the same as [deleteFolder]. *)
Theorem onDeleteClick_deletes_only_on_confirm fuel fid showModal st :
  acyclic (folders st) →
  (length (folders st) < fuel)%nat →
  (∃ st',
     onDeleteClick fuel fid showModal st = Returned tt st'
     ∧ (st' = st
        ∨ ∃ folder ds,
            folder ∈ folders st ∧ id folder = fid
            ∧ getDescendantFolderIds fuel (folders st) fid = Some ds
            ∧ showModal (mkDeletePrompt folder (length ds)
                                        (sessionCountOf st fid)) = Some true
            ∧ deleteFolder fuel fid st = Returned tt st'))
  ∧ (fid ∈ id <$> folders st → (∀ p, showModal p = Some true) →
     onDeleteClick fuel fid showModal st = deleteFolder fuel fid st).
Proof.
  intros Hac Hlt. destruct (acyclic_returns _ fid fuel Hac Hlt) as [ds Hds].
  pose proof (deleteFolder_eq fuel fid st) as Hdel. rewrite Hds in Hdel.
  unfold onDeleteClick. remember (deleteFolder fuel fid) as del eqn:Hdef.
  unfold bind, get_state. cbn.
  destruct (list_find _ (folders st)) as [[i folder]|] eqn:Hfind.
  - apply list_find_Some in Hfind as (Hi & Hid & _).
    apply list_elem_of_lookup_2 in Hi.
    rewrite Hds. cbn. unfold try_catch. split.
    + destruct (showModal _) as [[|]|] eqn:Hanswer; cbn.
      * rewrite Hdel. eexists. split; [done|]. right. by exists folder, ds.
      * exists st. by split; [|left].
      * exists st. by split; [|left].
    + intros _ Hyes. by rewrite Hyes, Hdel.
  - split; [exists st; by split; [|left]|].
    intros (f & Hid & Hf)%list_elem_of_fmap.
    apply list_find_None in Hfind. rewrite Forall_forall in Hfind.
    by destruct (Hfind f Hf).
Qed.

(** X19: the add-folder prompt returns, and creates nothing for a
    dismissed prompt, an empty answer or an answer that trims to nothing;
    otherwise it appends one root folder named by the trimmed answer, in
    the default colour and expanded. *)
Theorem showAddFolderPrompt_creates_named_root trim answer now rnd st :
  ∃ st',
    showAddFolderPrompt trim answer now rnd st = Returned tt st'
    ∧ ((st' = st
        ∧ (answer = None
           ∨ ∃ nm, answer = Some nm ∧ (nm = "" ∨ trim nm = "")))
       ∨ ∃ nm f,
           answer = Some nm ∧ nm ≠ ""
           ∧ folders st' = folders st ++ [f]
           ∧ name f = trim nm ∧ name f ≠ ""
           ∧ parentId f = None ∧ color f = default_color
           ∧ id f ∈ expandedFolders st').
Proof.
  unfold showAddFolderPrompt. destruct answer as [nm|]; [|by eauto 10].
  unfold truthy. do 2 case_bool_decide; cbn; [by eauto 10..|].
  unfold bind. rewrite createFolder_eq. cbv zeta. eexists. split; [done|].
  right. eexists nm, _. split; [done|]. split; [done|].
  rewrite folders_published, expandedFolders_published. cbn.
  split; [done|]. do 4 (split; [done|]).
  apply elem_of_union_l, elem_of_singleton. done.
Qed.

End Prompts.

Lemma deleteFolder_removes_announced_count_witness :
  ∃ ds st',
    getDescendantFolderIds 4 sampleFolders "A" = Some ds
    ∧ deleteFolder (host := offlineHost) 4 "A" sampleStore = Returned tt st'
    ∧ (length (folders st') + 1 + length ds = 3)%nat.
Proof.
  apply (deleteFolder_removes_announced_count (host := offlineHost)
           4 "A" sampleStore).
  - exact sampleFolders_unique_ids.
  - apply acyclicb_sound. reflexivity.
  - apply list_elem_of_here.
  - simpl. lia.
Defined.

Lemma deleteFolder_unassigns_at_least_announced_witness :
  ∃ st',
    deleteFolder (host := offlineHost) 4 "A" sampleStore = Returned tt st'
    ∧ (sessionCountOf sampleStore "A" + size (sessionFolders st')
       < size (sessionFolders sampleStore))%nat.
Proof.
  pose proof (deleteFolder_eq (host := offlineHost) 4 "A" sampleStore) as E.
  vm_compute (getDescendantFolderIds _ _ _) in E.
  eexists. split; [exact E|].
  apply (proj2 (deleteFolder_unassigns_at_least_announced
                  (host := offlineHost) 4 "A" sampleStore _ E) "s2" "B").
  - reflexivity.
  - apply tc_once. exists folderB.
    split; [|done]. apply list_elem_of_further, list_elem_of_here.
  - done.
Defined.

Lemma onDeleteClick_deletes_only_on_confirm_witness :
  onDeleteClick (host := offlineHost) 4 "A" (λ _, Some true) sampleStore
  = deleteFolder (host := offlineHost) 4 "A" sampleStore.
Proof.
  apply (onDeleteClick_deletes_only_on_confirm (host := offlineHost)
           4 "A" (λ _, Some true) sampleStore).
  - apply acyclicb_sound. reflexivity.
  - simpl. lia.
  - apply list_elem_of_here.
  - reflexivity.
Defined.

Lemma renderList_hides_dangling_assignments_witness :
  ∃ v,
    renderList 4 (store sampleFolders {[ "s1" := "gone" ]}) sampleSessions
    = Some v
    ∧ mkSession "s1" (Some "db") ∉ view_sessions v.
Proof.
  destruct (renderList 4 (store sampleFolders {[ "s1" := "gone" ]})
              sampleSessions) as [v|] eqn:E; [|by vm_compute in E].
  exists v. split; [done|].
  apply (proj1 (proj2 (renderList_hides_dangling_assignments _ _ _ _ E))
           (mkSession "s1" (Some "db")) "gone").
  - reflexivity.
  - reflexivity.
  - by apply (bool_decide_unpack _).
Defined.

Lemma home_tabs_follow_sidebar_roots_witness :
  ∃ v,
    renderList 4 openStore sampleSessions = Some v
    ∧ Forall2 (λ tab item,
                 tab_folder tab = item_folder item
                 ∧ (item_count item ≤ tab_count tab)%nat)
              (tabs (renderHomeFolders openStore sampleSessions None))
              (items v).
Proof.
  destruct (renderList 4 openStore sampleSessions) as [v|] eqn:E;
    [|by vm_compute in E].
  exists v. split; [done|].
  apply (home_tabs_follow_sidebar_roots 4 openStore sampleSessions None v E).
  - done.
  - by apply (bool_decide_unpack _).
Defined.

Lemma dispatchFolderFilter_selects_assigned_witness :
  ∃ ids,
    detail_sessionIds
      (dispatchFolderFilter sampleStore (Some "A") (Some "Work")).2 = Some ids
    ∧ length ids = sessionCountOf sampleStore "A".
Proof.
  destruct (dispatchFolderFilter_selects_assigned sampleStore "A" (Some "Work"))
    as (_ & ids & E & _ & Hlen & _).
  - reflexivity.
  - by exists ids.
Defined.

Section Picker.
Context `{host : Host}.
Implicit Types (st : State) (o : MoveOption).

(** X23: deleting the folder the home panel is filtered by leaves the
    panel, re-rendered with the filter as it stands, with no active row at
    all: the All row is inactive and so is every tab. *)
Theorem deleted_filter_folder_leaves_no_active_tab fuel fid st st' sessions :
  deleteFolder fuel fid st = Returned tt st' →
  truthy fid = true →
  all_active (renderHomeFolders st' sessions (Some fid)) = false
  ∧ Forall (λ tab, tab_active tab = false)
           (tabs (renderHomeFolders st' sessions (Some fid))).
Proof.
  rewrite deleteFolder_eq.
  destruct (getDescendantFolderIds fuel (folders st) fid) as [ds|]; [|done].
  intros [= <-] Hfid. cbn [all_active tabs renderHomeFolders truthy_opt].
  rewrite Hfid. split; [done|]. apply Forall_fmap, Forall_forall.
  intros f Hf%rootFolders_subset. cbn. apply bool_decide_eq_false.
  intros [= Hid]. rewrite folders_published in Hf. cbn in Hf.
  apply list_elem_of_filter in Hf as [Hnot _]. apply Hnot.
  rewrite <- Hid. apply list_elem_of_here.
Qed.

(** X24: for a session whose id names no member of [Object.prototype],
    picking a row of the move-to-folder picker returns, assigns the session
    to that row's target, which is no folder or a folder of the list, and
    the picker opened again offers the same targets and marks as current
    exactly the rows with the picked target. *)
Theorem picked_row_is_current_next_time st sessionId opts o :
  sessionId ∉ object_prototype_names →
  showMoveToFolderMenu st sessionId = Some opts →
  o ∈ opts →
  opt_target o = None ∨ truthy_opt (opt_target o) = true →
  ∃ st' opts',
    onMoveOptionClick sessionId o st = Returned tt st'
    ∧ getSessionFolder st' sessionId = VString <$> opt_target o
    ∧ (opt_target o = None
       ∨ ∃ f, f ∈ folders st' ∧ opt_target o = Some (id f))
    ∧ showMoveToFolderMenu st' sessionId = Some opts'
    ∧ opt_target <$> opts' = opt_target <$> opts
    ∧ (∀ o', o' ∈ opts' →
             opt_current o' = true ↔ opt_target o' = opt_target o).
Proof.
  intros Hplain. unfold showMoveToFolderMenu, onMoveOptionClick.
  case_bool_decide as Hlen; [done|]. intros [= <-] Ho Htarget.
  destruct (moveSessionToFolder_model sessionId (opt_target o) st)
    as (st' & -> & Hfs & _ & Hsf).
  assert (sessionId ≠ "__proto__") as Hproto.
  { intros ->. apply Hplain. by apply (bool_decide_unpack _). }
  assert (js_get (sessionFolders st') sessionId = VString <$> opt_target o)
    as Hcur.
  { rewrite (js_get_plain _ _ Hplain), Hsf.
    destruct (opt_target o) as [f|].
    - destruct Htarget as [|Hf]; [done|]. cbn in Hf.
      rewrite Hf, js_set_stored by by left. by rewrite lookup_insert_eq.
    - unfold js_delete. by rewrite lookup_delete_eq. }
  assert (getSessionFolder st' sessionId = VString <$> opt_target o) as Hget.
  { unfold getSessionFolder. rewrite Hcur. cbv zeta.
    destruct (opt_target o) as [f|]; [|done].
    destruct Htarget as [|Hf]; [done|]. cbn in Hf |- *. by rewrite Hf. }
  exists st'. eexists. split; [done|]. split; [done|]. rewrite Hfs.
  rewrite (bool_decide_eq_false_2 _ Hlen). split; [|split; [done|split]].
  - apply elem_of_cons in Ho as [->|(f & -> & Hf)%list_elem_of_fmap];
      [by left|right]. by exists f.
  - cbn. f_equal. rewrite <- !list_fmap_compose.
    by apply list_fmap_ext.
  - intros o'. rewrite Hcur.
    intros [->|(f & -> & Hf)%list_elem_of_fmap]%elem_of_cons; cbn.
    + destruct Htarget as [->|Ht]; [done|].
      destruct (opt_target o) as [g|]; [|done]. cbn in Ht |- *.
      rewrite Ht. cbn. split; [done|]. done.
    + rewrite bool_decide_eq_true.
      destruct (opt_target o) as [g|]; cbn; split; congruence.
Qed.

End Picker.

Lemma deleted_filter_folder_leaves_no_active_tab_witness :
  ∃ st',
    deleteFolder (host := offlineHost) 4 "A" sampleStore = Returned tt st'
    ∧ all_active (renderHomeFolders st' sampleSessions (Some "A")) = false
    ∧ Forall (λ tab, tab_active tab = false)
             (tabs (renderHomeFolders st' sampleSessions (Some "A"))).
Proof.
  pose proof (deleteFolder_eq (host := offlineHost) 4 "A" sampleStore) as E.
  vm_compute (getDescendantFolderIds _ _ _) in E.
  eexists. split; [exact E|].
  apply (deleted_filter_folder_leaves_no_active_tab (host := offlineHost)
           4 "A" sampleStore _ sampleSessions E).
  reflexivity.
Defined.

Lemma picked_row_is_current_next_time_witness :
  ∃ st',
    onMoveOptionClick (host := offlineHost) "s1"
      (mkMoveOption (Some "B") "Servers" false) sampleStore
    = Returned tt st'
    ∧ getSessionFolder st' "s1" = Some (VString "B").
Proof.
  destruct (picked_row_is_current_next_time (host := offlineHost)
              sampleStore "s1"
              [mkMoveOption None "(No folder)" false;
               mkMoveOption (Some "A") "Work" true;
               mkMoveOption (Some "B") "Servers" false;
               mkMoveOption (Some "C") "Home" false]
              (mkMoveOption (Some "B") "Servers" false))
    as (st' & _ & E & Hget & _).
  - by apply (bool_decide_unpack _).
  - reflexivity.
  - do 2 apply list_elem_of_further. apply list_elem_of_here.
  - by right.
  - by exists st'.
Defined.
